(** * The payload encryption codec of [temporal_encryption/codec.py]

    A shallow embedding of [EncryptionCodec] (construction, [encode],
    [decode], [_encrypt], [_decrypt]) and of [load_encryption_codec],
    together with the Python built-ins the codec calls ([str.encode],
    [bytes.decode], [bytes.fromhex], [os.urandom], [os.environ.get]).

    The two libraries the codec delegates to, [cryptography]'s [AESGCM] and
    protobuf's [Payload] serialisation, are interfaces ([Cipher], [Wire]);
    what the codec needs from them is stated as explicit contracts. *)

From Stdlib Require Import NArith Lia List.
From Stdlib Require Import Strings.Byte Strings.String Strings.Ascii.
From stdpp Require Import base option list gmap strings countable.

Local Open Scope N_scope.

(** ** Python values *)

(** [bytes] is a sequence of octets, [str] a sequence of code points.  A
    Python [str] may hold any code point below [0x110000], lone surrogates
    included. *)
Abbreviation bytes := (list byte).
Abbreviation str := (list N).

#[global] Instance byte_eq_dec : EqDecision byte := Byte.byte_eq_dec.

Definition byte_of_N (n : N) : byte := default x00 (Byte.of_N n).

(** A [str] literal of the source, and a [bytes] literal ([b'...']). *)
Definition str_lit (s : string) : str := map N_of_ascii (list_ascii_of_string s).
Definition bytes_lit (s : string) : bytes := String.list_byte_of_string s.

(** ** Exceptions

    A message is kept as the pieces of the f-string that builds it:
    literal text and [{x!r}] fields. *)
Inductive fragment : Type :=
| Lit (text : string)
| Repr (value : str).

Inductive exn : Type :=
| ValueError (msg : list fragment)
| UnicodeEncodeError
| UnicodeDecodeError
| InvalidTag
| DecodeError.

Inductive result (A : Type) : Type :=
| Return (a : A)
| Raise (e : exn).
Arguments Return {A} a.
Arguments Raise {A} e.

#[global] Instance result_ret : MRet result := @Return.
#[global] Instance result_bind : MBind result := fun A B f r =>
  match r with
  | Return a => f a
  | Raise e => Raise e
  end.
#[global] Instance result_fmap : FMap result := fun A B f r =>
  match r with
  | Return a => Return (f a)
  | Raise e => Raise e
  end.

(** ** The process: the entropy device behind [os.urandom]

    [entropy] is the stream the device will deliver and [consumed] how much
    of it the process has read. *)
Record world : Type := World {
  entropy : nat -> byte;
  consumed : nat
}.

(** A method body: it may read and advance the world, and it returns or
    raises.  What it did to the world before raising stays done. *)
Definition M (A : Type) : Type := world -> result A * world.

#[global] Instance M_ret : MRet M := fun A a w => (Return a, w).
#[global] Instance M_bind : MBind M := fun A B f m w =>
  match m w with
  | (Return a, w') => f a w'
  | (Raise e, w') => (Raise e, w')
  end.

Definition lift {A} (r : result A) : M A := fun w => (r, w).

(** [os.urandom(n)] *)
Definition os_urandom (n : nat) : M bytes := fun w =>
  (Return (map (entropy w) (seq (consumed w) n)),
   World (entropy w) (consumed w + n)).

(** ** [str.encode()] and [bytes.decode()]: strict UTF-8 *)

Definition is_surrogate (c : N) : bool := (0xD800 <=? c) && (c <=? 0xDFFF).

Definition utf8_encode_char (c : N) : option bytes :=
  if c <? 0x80 then Some [byte_of_N c]
  else if c <? 0x800 then
    Some [byte_of_N (0xC0 + c / 64); byte_of_N (0x80 + c mod 64)]
  else if c <? 0x10000 then
    if is_surrogate c then None
    else Some [byte_of_N (0xE0 + c / 4096);
               byte_of_N (0x80 + (c / 64) mod 64);
               byte_of_N (0x80 + c mod 64)]
  else if c <? 0x110000 then
    Some [byte_of_N (0xF0 + c / 262144);
          byte_of_N (0x80 + (c / 4096) mod 64);
          byte_of_N (0x80 + (c / 64) mod 64);
          byte_of_N (0x80 + c mod 64)]
  else None.

Fixpoint utf8_encode (s : str) : option bytes :=
  match s with
  | [] => Some []
  | c :: s' =>
      match utf8_encode_char c, utf8_encode s' with
      | Some bs, Some bs' => Some (bs ++ bs')
      | _, _ => None
      end
  end.

Definition str_encode (s : str) : result bytes :=
  match utf8_encode s with
  | Some bs => Return bs
  | None => Raise UnicodeEncodeError
  end.

(** The payload bits of a continuation byte [10xxxxxx]. *)
Definition continuation (b : byte) : option N :=
  let n := Byte.to_N b in
  if (0x80 <=? n) && (n <? 0xC0) then Some (n - 0x80) else None.

Fixpoint utf8_decode (bs : bytes) : option str :=
  match bs with
  | [] => Some []
  | b0 :: r0 =>
      let n0 := Byte.to_N b0 in
      if n0 <? 0x80 then cons n0 <$> utf8_decode r0
      else if n0 <? 0xC2 then None
      else if n0 <? 0xE0 then
        match r0 with
        | b1 :: r1 =>
            match continuation b1 with
            | Some x1 => cons ((n0 - 0xC0) * 64 + x1) <$> utf8_decode r1
            | None => None
            end
        | _ => None
        end
      else if n0 <? 0xF0 then
        match r0 with
        | b1 :: b2 :: r2 =>
            match continuation b1, continuation b2 with
            | Some x1, Some x2 =>
                let c := (n0 - 0xE0) * 4096 + x1 * 64 + x2 in
                if (0x800 <=? c) && negb (is_surrogate c)
                then cons c <$> utf8_decode r2 else None
            | _, _ => None
            end
        | _ => None
        end
      else if n0 <? 0xF5 then
        match r0 with
        | b1 :: b2 :: b3 :: r3 =>
            match continuation b1, continuation b2, continuation b3 with
            | Some x1, Some x2, Some x3 =>
                let c := (n0 - 0xF0) * 262144 + x1 * 4096 + x2 * 64 + x3 in
                if (0x10000 <=? c) && (c <? 0x110000)
                then cons c <$> utf8_decode r3 else None
            | _, _, _ => None
            end
        | _ => None
        end
      else None
  end.

Definition bytes_decode (bs : bytes) : result str :=
  match utf8_decode bs with
  | Some s => Return s
  | None => Raise UnicodeDecodeError
  end.

(** ** [bytes.fromhex]

    ASCII whitespace is skipped before each pair of hexadecimal digits,
    never inside a pair; anything else raises [ValueError]. *)
Definition Py_ISSPACE (c : N) : bool :=
  (c =? 0x20) || ((0x09 <=? c) && (c <=? 0x0D)).

Definition hex_digit (c : N) : option N :=
  if (48 <=? c) && (c <=? 57) then Some (c - 48)
  else if (97 <=? c) && (c <=? 102) then Some (c - 87)
  else if (65 <=? c) && (c <=? 70) then Some (c - 55)
  else None.

Definition fromhex_error : exn :=
  ValueError [Lit "non-hexadecimal number found in fromhex() arg"].

Fixpoint bytes_fromhex (s : str) : result bytes :=
  match s with
  | [] => Return []
  | c :: s1 =>
      if Py_ISSPACE c then bytes_fromhex s1
      else
        match hex_digit c, s1 with
        | Some top, d :: s2 =>
            match hex_digit d with
            | Some bot => cons (byte_of_N (top * 16 + bot)) <$> bytes_fromhex s2
            | None => Raise fromhex_error
            end
        | _, _ => Raise fromhex_error
        end
  end.

(** ** The libraries behind the codec *)

(** The protobuf message [temporalio.api.common.v1.Payload]: a
    [map<string, bytes>] of metadata and the data. *)
Record Payload : Type := {
  metadata : gmap str bytes;
  data : bytes
}.

(** protobuf's [Payload.SerializeToString] and [Payload.FromString]. *)
Class Wire : Type := {
  SerializeToString : Payload -> bytes;
  FromString : bytes -> result Payload
}.

(** [cryptography]'s AES-GCM with no associated data:
    [AESGCM(key).encrypt(nonce, data, None)] and
    [AESGCM(key).decrypt(nonce, data, None)]. *)
Class Cipher : Type := {
  AESGCM_encrypt : bytes -> bytes -> bytes -> bytes;
  AESGCM_decrypt : bytes -> bytes -> bytes -> result bytes
}.

(** The object [AESGCM(key)] holds the key; the constructor accepts
    128, 192 and 256 bit keys. *)
Record AESGCM_object : Type := { aes_key : bytes }.

Definition AESGCM (key : bytes) : result AESGCM_object :=
  if bool_decide (length key ∈ [16; 24; 32]%nat)
  then Return {| aes_key := key |}
  else Raise (ValueError [Lit "AESGCM key must be 128, 192, or 256 bits."]).

(** Flipping bit [i] of a byte string: bit [i mod 8] of byte [i / 8]. *)
Definition flip_in_byte (j : nat) (b : byte) : byte :=
  byte_of_N (N.lxor (Byte.to_N b) (2 ^ N.of_nat j)).

Fixpoint flip_bit (i : nat) (bs : bytes) : bytes :=
  match bs with
  | [] => []
  | b :: r =>
      if (i <? 8)%nat then flip_in_byte i b :: r
      else b :: flip_bit (i - 8) r
  end.

(** What the codec relies on. *)
Definition wire_correct {wire : Wire} : Prop :=
  forall p : Payload, FromString (SerializeToString p) = Return p.

Definition aead_correct {cipher : Cipher} : Prop :=
  forall key nonce msg : bytes,
    length key = 32%nat -> length nonce = 12%nat ->
    AESGCM_decrypt key nonce (AESGCM_encrypt key nonce msg) = Return msg.

Definition aead_authentic {cipher : Cipher} : Prop :=
  forall (key nonce msg : bytes) (i : nat),
    length key = 32%nat -> length nonce = 12%nat ->
    (i < 8 * length (nonce ++ AESGCM_encrypt key nonce msg))%nat ->
    let sealed := flip_bit i (nonce ++ AESGCM_encrypt key nonce msg) in
    AESGCM_decrypt key (take 12 sealed) (drop 12 sealed) = Raise InvalidTag.

(** ** [EncryptionCodec] *)

Record EncryptionCodec : Type := {
  key_id : str;
  _encryptor : AESGCM_object
}.

Definition __init__ (key_id : str) (key : bytes) : result EncryptionCodec :=
  if bool_decide (length key ≠ 32%nat)
  then Raise (ValueError [Lit "Key must be 32 bytes for AES-256-GCM"])
  else
    encryptor ← AESGCM key;
    mret {| key_id := key_id; _encryptor := encryptor |}.

Section Codec.
Context {cipher : Cipher} {wire : Wire}.

Definition _encrypt (self : EncryptionCodec) (data : bytes) : M bytes :=
  nonce ← os_urandom 12;
  mret (nonce ++ AESGCM_encrypt (aes_key (_encryptor self)) nonce data).

Definition _decrypt (self : EncryptionCodec) (data : bytes) : result bytes :=
  AESGCM_decrypt (aes_key (_encryptor self)) (take 12 data) (drop 12 data).

(** The list comprehension of [encode] is a monadic map: the body runs
    for each payload in turn, an exception leaving the comprehension. *)
Definition encode (self : EncryptionCodec) (payloads : list Payload)
  : M (list Payload) :=
  mapM
    (fun p =>
       kid ← lift (str_encode (key_id self));
       sealed ← _encrypt self (SerializeToString p);
       mret {| metadata := {[ str_lit "encoding" := bytes_lit "binary/encrypted";
                              str_lit "encryption-key-id" := kid ]};
               data := sealed |})
    payloads.

(** The loop of [decode], with [result] the list built so far. *)
Fixpoint decode_loop (self : EncryptionCodec) (payloads result : list Payload)
  : M (list Payload) :=
  match payloads with
  | [] => mret result
  | p :: rest =>
      encoding ← lift (bytes_decode (default [] (metadata p !! str_lit "encoding")));
      if bool_decide (encoding ≠ str_lit "binary/encrypted")
      then decode_loop self rest (result ++ [p])
      else
        found ← lift (bytes_decode
                        (default [] (metadata p !! str_lit "encryption-key-id")));
        if bool_decide (found ≠ key_id self)
        then lift (Raise (ValueError [Lit "Unknown key ID "; Repr found;
                                      Lit ", expected "; Repr (key_id self)]))
        else
          plain ← lift (_decrypt self (data p));
          q ← lift (FromString plain);
          decode_loop self rest (result ++ [q])
  end.

Definition decode (self : EncryptionCodec) (payloads : list Payload)
  : M (list Payload) :=
  decode_loop self payloads [].

End Codec.

(** ** [load_encryption_codec]

    [environ] is [os.environ]. *)
Definition load_encryption_codec (environ : gmap str str) : result EncryptionCodec :=
  match environ !! str_lit "TEMPORAL_ENCRYPTION_KEY" with
  | None | Some [] =>
      Raise (ValueError [Lit "TEMPORAL_ENCRYPTION_KEY environment variable not set"])
  | Some key_hex =>
      key ← bytes_fromhex key_hex;
      let key_id := default (str_lit "default-key")
                            (environ !! str_lit "TEMPORAL_ENCRYPTION_KEY_ID") in
      __init__ key_id key
  end.

(** ** Derived notions *)

(** What the loop body of [decode] does with one envelope. *)
Definition decode_payload {cipher : Cipher} {wire : Wire}
    (self : EncryptionCodec) (p : Payload) : result Payload :=
  encoding ← bytes_decode (default [] (metadata p !! str_lit "encoding"));
  if bool_decide (encoding ≠ str_lit "binary/encrypted") then mret p
  else
    found ← bytes_decode (default [] (metadata p !! str_lit "encryption-key-id"));
    if bool_decide (found ≠ key_id self)
    then Raise (ValueError [Lit "Unknown key ID "; Repr found;
                            Lit ", expected "; Repr (key_id self)])
    else
      plain ← _decrypt self (data p);
      FromString plain.

(** The envelope [encode] builds for [p] when the world is [w] and the key
    identifier encodes to [kid]. *)
Definition envelope {cipher : Cipher} {wire : Wire}
    (self : EncryptionCodec) (kid : bytes) (p : Payload) (w : world) : Payload :=
  let nonce := map (entropy w) (seq (consumed w) 12) in
  {| metadata := {[ str_lit "encoding" := bytes_lit "binary/encrypted";
                    str_lit "encryption-key-id" := kid ]};
     data := nonce ++ AESGCM_encrypt (aes_key (_encryptor self)) nonce
                                     (SerializeToString p) |}.

(** The envelope with bit [i] of its data flipped, metadata untouched. *)
Definition tamper (i : nat) (e : Payload) : Payload :=
  {| metadata := metadata e; data := flip_bit i (data e) |}.

(** The world after [n] more bytes of entropy were read. *)
Definition advance (n : nat) (w : world) : world :=
  World (entropy w) (consumed w + n).

(** Two outcomes that agree except, possibly, for the text of a
    [ValueError]. *)
Definition agree_up_to_message {A} (r1 r2 : result A) : Prop :=
  match r1, r2 with
  | Return a1, Return a2 => a1 = a2
  | Raise (ValueError _), Raise (ValueError _) => True
  | Raise e1, Raise e2 => e1 = e2
  | _, _ => False
  end.

(** ** A small instance of the two interfaces

    It shows that the contracts can be met together and gives the model
    something to run on.  The sealed text is the message behind a one-byte
    checksum of key, nonce and message; a payload is written as the binary
    digits of its code. *)

Definition byte_sum (bs : bytes) : N :=
  foldr (fun b acc => Byte.to_N b + acc) 0 bs.

Definition checksum (bs : bytes) : byte := byte_of_N (byte_sum bs mod 256).

#[global] Instance checksum_cipher : Cipher := {
  AESGCM_encrypt key nonce msg := checksum (key ++ nonce ++ msg) :: msg;
  AESGCM_decrypt key nonce sealed :=
    match sealed with
    | [] => Raise InvalidTag
    | tag :: msg =>
        if bool_decide (tag = checksum (key ++ nonce ++ msg))
        then Return msg else Raise InvalidTag
    end
}.

#[global] Instance byte_countable : Countable byte :=
  inj_countable Byte.to_N Byte.of_N Byte.of_to_N.

#[global] Instance Payload_eq_dec : EqDecision Payload.
Proof. solve_decision. Defined.

#[global] Instance Payload_countable : Countable Payload :=
  inj_countable' (fun p => (metadata p, data p))
                 (fun md => {| metadata := md.1; data := md.2 |})
                 (fun p => match p with Build_Payload _ _ => eq_refl end).

Fixpoint digits (n : positive) : bytes :=
  match n with
  | xH => []
  | xO n' => x00 :: digits n'
  | xI n' => x01 :: digits n'
  end.

Fixpoint undigits (bs : bytes) : option positive :=
  match bs with
  | [] => Some xH
  | x00 :: bs' => xO <$> undigits bs'
  | x01 :: bs' => xI <$> undigits bs'
  | _ => None
  end.

#[global] Instance digit_wire : Wire := {
  SerializeToString p := digits (countable.encode p);
  FromString bs :=
    match undigits bs ≫= countable.decode with
    | Some p => Return p
    | None => Raise DecodeError
    end
}.

(** The scenario of the specification: a zero key, the default
    identifier, the payload [ping]. *)
Definition zero_key : bytes := replicate 32 x00.
Definition ping : Payload :=
  {| metadata := {[ str_lit "encoding" := bytes_lit "binary/plain" ]};
     data := bytes_lit "ping" |}.
Definition default_codec : EncryptionCodec :=
  {| key_id := str_lit "default-key"; _encryptor := {| aes_key := zero_key |} |}.
Definition quiet : world := World (fun _ => x00) 0.
Definition counting : world := World (fun i => byte_of_N (N.of_nat i)) 0.

(** [ping] as [default_codec] seals it when the device is [counting]. *)
Definition sealed_ping : Payload :=
  envelope (cipher:=checksum_cipher) (wire:=digit_wire)
           default_codec (bytes_lit "default-key") ping counting.

(** An envelope sealed under another key identifier. *)
Definition foreign : Payload :=
  {| metadata := {[ str_lit "encoding" := bytes_lit "binary/encrypted";
                    str_lit "encryption-key-id" := bytes_lit "old-key" ]};
     data := data sealed_ping |}.

(** An envelope that carries no metadata at all. *)
Definition bare : Payload := {| metadata := ∅; data := bytes_lit "raw" |}.

(** A second plain payload, to tell positions apart. *)
Definition pong : Payload :=
  {| metadata := {[ str_lit "encoding" := bytes_lit "binary/plain" ]};
     data := bytes_lit "pong" |}.

(** An environment that supplies the zero key and no identifier. *)
Definition zero_environ : gmap str str :=
  {[ str_lit "TEMPORAL_ENCRYPTION_KEY" :=
       str_lit "0000000000000000000000000000000000000000000000000000000000000000" ]}.

(** Envelopes whose metadata is not UTF-8 text: a marker that is no text,
    and a recognised marker beside a key identifier that is no text. *)
Definition binary_marker : Payload :=
  {| metadata := {[ str_lit "encoding" := [xff] ]}; data := bytes_lit "plain" |}.
Definition binary_key_id : Payload :=
  {| metadata := {[ str_lit "encoding" := bytes_lit "binary/encrypted";
                    str_lit "encryption-key-id" := [xff] ]};
     data := [] |}.

(** [bytes.hex()]: two lower-case hexadecimal digits for each byte. *)
Definition hex_char (d : N) : N := if d <? 10 then 48 + d else 87 + d.

Definition bytes_hex (bs : bytes) : str :=
  flat_map (fun b => [hex_char (Byte.to_N b / 16); hex_char (Byte.to_N b mod 16)]) bs.

(** A hexadecimal string as [bytes.hex()] would have written it: white
    space dropped and the letters [A] to [F] in lower case. *)
Definition lower_hex (c : N) : N :=
  if (65 <=? c) && (c <=? 70) then c + 32 else c.

Fixpoint hex_normal (s : str) : str :=
  match s with
  | [] => []
  | c :: s' => if Py_ISSPACE c then hex_normal s' else lower_hex c :: hex_normal s'
  end.

(** A key with every hexadecimal digit in it, and an environment that
    supplies it in mixed case, with white space between the bytes, beside
    an identifier. *)
Definition mixed_key : bytes :=
  [x01; x23; x45; x67; x89; xab; xcd; xef; xfe; xdc; xba; x98; x76; x54; x32; x10;
   x0f; x1e; x2d; x3c; x4b; x5a; x69; x78; x87; x96; xa5; xb4; xc3; xd2; xe1; xf0].

Definition mixed_environ : gmap str str :=
  {[ str_lit "TEMPORAL_ENCRYPTION_KEY" :=
       str_lit "0123456789ABCDEF fedcba9876543210 0f1e2d3c4b5a6978 8796A5B4C3D2E1F0";
     str_lit "TEMPORAL_ENCRYPTION_KEY_ID" := str_lit "key-2" ]}.

Definition exact_environ : gmap str str :=
  {[ str_lit "TEMPORAL_ENCRYPTION_KEY" := bytes_hex mixed_key ]}.

(** A codec over the zero key with a key identifier of its own. *)
Definition other_codec : EncryptionCodec :=
  {| key_id := str_lit "other-key"; _encryptor := {| aes_key := zero_key |} |}.

(** A codec whose key identifier holds a lone surrogate. *)
Definition surrogate_codec : EncryptionCodec :=
  {| key_id := [0xD800]; _encryptor := {| aes_key := zero_key |} |}.

(** ** The two processes: [worker.py] and [starter.py]

    [run_worker] and [main] are sequences of calls into the world outside
    the repository: the environment, the Temporal client and worker,
    standard output.  A process is the tree of those calls; each call is
    answered with a value or an exception, or is never answered. *)

Section Processes.
(** [decimal.Decimal], [float], and temporalio's [Client] and [Worker]. *)
Context {Decimal float Client Worker : Type}.

(** [agent.TradeDecision] *)
Inductive Action : Type := buy | sell | hold.

Record TradeDecision : Type := {
  action : Action;
  market_id : str;
  amount : Decimal;
  reasoning : str;
  confidence : float
}.

(** [result.action.upper()] *)
Definition action_upper (a : Action) : str :=
  match a with
  | buy => str_lit "BUY"
  | sell => str_lit "SELL"
  | hold => str_lit "HOLD"
  end.

(** temporalio's [DataConverter]; [default_converter] is
    [temporalio.converter.default()], which has no payload codec. *)
Record DataConverter : Type := {
  payload_converter_class : string;
  failure_converter_class : string;
  payload_codec : option EncryptionCodec
}.

Definition default_converter : DataConverter :=
  {| payload_converter_class := "DefaultPayloadConverter";
     failure_converter_class := "DefaultFailureConverter";
     payload_codec := None |}.

(** [dataclasses.replace(converter, payload_codec=codec)] *)
Definition replace_payload_codec (converter : DataConverter)
    (codec : EncryptionCodec) : DataConverter :=
  {| payload_converter_class := payload_converter_class converter;
     failure_converter_class := failure_converter_class converter;
     payload_codec := Some codec |}.

(** The pieces of a printed f-string: text, a string field, a [Decimal]
    field and a float under [:.0%]. *)
Inductive piece : Type :=
| Text (s : string)
| Field (s : str)
| Amount (d : Decimal)
| Percent (f : float).

Inductive call : Type -> Type :=
| load_dotenv : call bool
| os_environ : call (gmap str str)
| Client_connect (target_host : str) (data_converter : DataConverter)
    (plugins : list string) : call Client
| Worker_new (client : Client) (task_queue : str) (workflows : list string)
    : call Worker
| Worker_enter (worker : Worker) : call unit
| Worker_exit (worker : Worker) : call unit
| print (line : list piece) : call unit
| Event_wait : call bool
| uuid4 : call str
| execute_workflow (client : Client) (workflow : string) (args : list str)
    (id : str) (task_queue : str) : call TradeDecision.

Inductive proc (R : Type) : Type :=
| Done (r : R)
| Throw (x : exn)
| Call {X : Type} (c : call X) (k : result X -> proc R).
Arguments Done {R} r.
Arguments Throw {R} x.
Arguments Call {R X} c k.

Fixpoint proc_bind {A B} (f : A -> proc B) (p : proc A) : proc B :=
  match p with
  | Done a => f a
  | Throw x => Throw x
  | Call c k => Call c (fun r => proc_bind f (k r))
  end.

#[global] Instance proc_ret : MRet proc := @Done.
#[global] Instance proc_mbind : MBind proc := @proc_bind.

(** A call whose exception, if any, is left to propagate. *)
Definition await {X} (c : call X) : proc X :=
  Call c (fun r => match r with Return x => Done x | Raise e => Throw e end).

Definition lift_result {A} (r : result A) : proc A :=
  match r with Return a => Done a | Raise e => Throw e end.

(** [try: body finally: exit], the shape of [async with]. *)
Fixpoint finally {A} (body : proc A) (exit : proc unit) : proc A :=
  match body with
  | Done a => _ ← exit; Done a
  | Throw x => _ ← exit; Throw x
  | Call c k => Call c (fun r => finally (k r) exit)
  end.

Definition TASK_QUEUE : str := str_lit "encrypted-trading-queue".

(** [worker.run_worker] *)
Definition run_worker : proc unit :=
  _ ← await load_dotenv;
  environ ← await os_environ;
  encryption_codec ← lift_result (load_encryption_codec environ);
  let data_converter := replace_payload_codec default_converter encryption_codec in
  environ ← await os_environ;
  client ← await (Client_connect
                    (default (str_lit "localhost:7233")
                             (environ !! str_lit "TEMPORAL_HOST"))
                    data_converter ["PydanticAIPlugin"]);
  worker ← await (Worker_new client TASK_QUEUE ["TradingWorkflow"]);
  _ ← await (Worker_enter worker);
  finally
    (_ ← await (print [Text "Worker started on task queue: "; Field TASK_QUEUE]);
     _ ← await (print [Text "All payloads are encrypted with AES-256-GCM"]);
     _ ← await (print [Text "Sensitive data (API keys, positions, trades) never visible to Temporal server"]);
     _ ← await Event_wait;
     Done ())
    (await (Worker_exit worker)).

(** [starter.main] *)
Definition main : proc unit :=
  _ ← await load_dotenv;
  environ ← await os_environ;
  encryption_codec ← lift_result (load_encryption_codec environ);
  let data_converter := replace_payload_codec default_converter encryption_codec in
  environ ← await os_environ;
  client ← await (Client_connect
                    (default (str_lit "localhost:7233")
                             (environ !! str_lit "TEMPORAL_HOST"))
                    data_converter ["PydanticAIPlugin"]);
  uuid ← await uuid4;
  let workflow_id := str_lit "trading-" ++ uuid in
  result ← await (execute_workflow client "TradingWorkflow.run"
                    [str_lit "Analyze the btc-100k-2025 market. Should I buy more YES shares given my current position?";
                     str_lit "trader-001";
                     str_lit "market_api_key_xxxxx";
                     str_lit "1000"]
                    workflow_id TASK_QUEUE);
  _ ← await (print [Text "Workflow "; Field workflow_id; Text " completed"]);
  _ ← await (print [Text "Decision: "; Field (action_upper (action result));
                    Text " "; Field (market_id result)]);
  _ ← await (print [Text "Amount: $"; Amount (amount result)]);
  _ ← await (print [Text "Confidence: "; Percent (confidence result)]);
  await (print [Text "Reasoning: "; Field (reasoning result)]).

(** *** Runs

    An event is a call with the answer it got, if any.  A run of a process
    is the list of its events and how it ended. *)
Inductive event : Type :=
| Event {X : Type} (c : call X) (answer : option (result X)).

Inductive outcome (R : Type) : Type :=
| Returned (r : R)
| Raised (x : exn)
| Blocked.
Arguments Returned {R} r.
Arguments Raised {R} x.
Arguments Blocked {R}.

Fixpoint runs {R} (p : proc R) (t : list event) (o : outcome R) : Prop :=
  match p with
  | Done r => t = [] /\ o = Returned r
  | Throw x => t = [] /\ o = Raised x
  | Call c k =>
      (t = [Event c None] /\ o = Blocked) \/
      (exists a t', t = Event c (Some a) :: t' /\ runs (k a) t' o)
  end.

(** What a run read of the environment, which connections it asked for,
    and which workflows it submitted with which client. *)
Definition environ_read (e : event) : option (gmap str str) :=
  match e with
  | Event c (Some (Return environ)) =>
      match c in call X return X -> option (gmap str str) with
      | os_environ => fun environ => Some environ
      | _ => fun _ => None
      end environ
  | _ => None
  end.

Definition connection (e : event) : option (str * DataConverter) :=
  match e with
  | Event c _ =>
      match c with
      | Client_connect host converter _ => Some (host, converter)
      | _ => None
      end
  end.

Definition connected (e : event) : option Client :=
  match e with
  | Event c (Some (Return client)) =>
      match c in call X return X -> option Client with
      | Client_connect _ _ _ => fun client => Some client
      | _ => fun _ => None
      end client
  | _ => None
  end.

Definition submission (e : event) : option (Client * list str * str) :=
  match e with
  | Event c _ =>
      match c with
      | execute_workflow client _ args _ queue => Some (client, args, queue)
      | _ => None
      end
  end.

Definition polling (e : event) : option (Client * str) :=
  match e with
  | Event c _ =>
      match c with
      | Worker_new client queue _ => Some (client, queue)
      | _ => None
      end
  end.

Definition entered (e : event) : option Worker :=
  match e with
  | Event c (Some (Return _)) =>
      match c with
      | Worker_enter worker => Some worker
      | _ => None
      end
  | _ => None
  end.

Definition exited (e : event) : option Worker :=
  match e with
  | Event c _ =>
      match c with
      | Worker_exit worker => Some worker
      | _ => None
      end
  end.

End Processes.

Arguments Done {Decimal float Client Worker R} r.
Arguments Throw {Decimal float Client Worker R} x.
Arguments Call {Decimal float Client Worker R X} c k.
Arguments Returned {R} r.
Arguments Raised {R} x.
Arguments Blocked {R}.

(** Three runs, with numbers for the clients and workers: a process
    started without a key, a worker that served until its wait returned,
    and a starter waiting for its workflow. *)
Definition keyless_run : list (@event N N nat nat) :=
  [Event load_dotenv (Some (Return false));
   Event os_environ (Some (Return ∅))].

Definition worker_run : list (@event N N nat nat) :=
  [Event load_dotenv (Some (Return true));
   Event os_environ (Some (Return zero_environ));
   Event os_environ (Some (Return zero_environ));
   Event (Client_connect (str_lit "localhost:7233")
            (replace_payload_codec default_converter default_codec)
            ["PydanticAIPlugin"]) (Some (Return 7%nat));
   Event (Worker_new 7%nat TASK_QUEUE ["TradingWorkflow"]) (Some (Return 3%nat));
   Event (Worker_enter 3%nat) (Some (Return ()));
   Event (print [Text "Worker started on task queue: "; Field TASK_QUEUE])
         (Some (Return ()));
   Event (print [Text "All payloads are encrypted with AES-256-GCM"])
         (Some (Return ()));
   Event (print [Text "Sensitive data (API keys, positions, trades) never visible to Temporal server"])
         (Some (Return ()));
   Event Event_wait (Some (Return true));
   Event (Worker_exit 3%nat) (Some (Return ()))].

Definition starter_run : list (@event N N nat nat) :=
  [Event load_dotenv (Some (Return true));
   Event os_environ (Some (Return zero_environ));
   Event os_environ (Some (Return zero_environ));
   Event (Client_connect (str_lit "localhost:7233")
            (replace_payload_codec default_converter default_codec)
            ["PydanticAIPlugin"]) (Some (Return 7%nat));
   Event uuid4 (Some (Return (str_lit "0000")));
   Event (execute_workflow 7%nat "TradingWorkflow.run"
            [str_lit "Analyze the btc-100k-2025 market. Should I buy more YES shares given my current position?";
             str_lit "trader-001";
             str_lit "market_api_key_xxxxx";
             str_lit "1000"]
            (str_lit "trading-0000") TASK_QUEUE) None].

(** * Properties *)

(** ** Bytes and UTF-8 *)

Ltac Zify.zify_post_hook ::= Z.to_euclidean_division_equations.

Lemma byte_of_N_to_N (n : N) : n < 256 -> Byte.to_N (byte_of_N n) = n.
Proof.
  intros Hn. unfold byte_of_N.
  destruct (Byte.of_N n) as [b|] eqn:E; simpl.
  - by apply Byte.to_of_N.
  - apply Byte.of_N_None_iff in E. lia.
Qed.

Lemma byte_to_N_lt (b : byte) : Byte.to_N b < 256.
Proof. pose proof (Byte.to_N_bounded b). lia. Qed.

Lemma continuation_tail (x : N) :
  x < 64 -> continuation (byte_of_N (0x80 + x)) = Some x.
Proof.
  intros Hx. unfold continuation. rewrite byte_of_N_to_N by lia.
  destruct (N.leb_spec 0x80 (0x80 + x)), (N.ltb_spec (0x80 + x) 0xC0);
    simpl; try lia.
  f_equal. lia.
Qed.

Ltac split_tests :=
  repeat match goal with
         | |- context [N.ltb ?a ?b] => destruct (N.ltb_spec a b); try lia
         | |- context [N.leb ?a ?b] => destruct (N.leb_spec a b); try lia
         | H : context [N.ltb ?a ?b] |- _ => destruct (N.ltb_spec a b); try lia
         | H : context [N.leb ?a ?b] |- _ => destruct (N.leb_spec a b); try lia
         end.

Lemma utf8_decode_encode_char (c : N) (bs rest : bytes) :
  utf8_encode_char c = Some bs ->
  utf8_decode (bs ++ rest) = cons c <$> utf8_decode rest.
Proof.
  unfold utf8_encode_char, is_surrogate. intros Hc.
  destruct (N.ltb_spec c 0x80).
  { injection Hc as <-. simpl. rewrite byte_of_N_to_N by lia.
    destruct (N.ltb_spec c 0x80); [done | lia]. }
  destruct (N.ltb_spec c 0x800).
  { injection Hc as <-. simpl. rewrite byte_of_N_to_N by lia.
    rewrite continuation_tail by lia.
    split_tests. do 2 f_equal. lia. }
  destruct (N.ltb_spec c 0x10000).
  { destruct (N.leb_spec 0xD800 c), (N.leb_spec c 0xDFFF); simpl in Hc;
      try discriminate; injection Hc as <-; simpl;
      rewrite byte_of_N_to_N by lia; rewrite !continuation_tail by lia;
      unfold is_surrogate;
      replace ((0xE0 + c / 4096 - 0xE0) * 4096 + (c / 64) mod 64 * 64 + c mod 64)
        with c by lia; split_tests; simpl; done. }
  destruct (N.ltb_spec c 0x110000); [|discriminate].
  injection Hc as <-. simpl.
  rewrite byte_of_N_to_N by lia. rewrite !continuation_tail by lia.
  replace ((0xF0 + c / 262144 - 0xF0) * 262144 + (c / 4096) mod 64 * 4096
           + (c / 64) mod 64 * 64 + c mod 64) with c by lia.
  split_tests. simpl. done.
Qed.

Lemma utf8_decode_encode (s : str) (bs : bytes) :
  utf8_encode s = Some bs -> utf8_decode bs = Some s.
Proof.
  revert bs. induction s as [|c s IH]; intros bs; simpl.
  - by intros [= <-].
  - destruct (utf8_encode_char c) as [b1|] eqn:Hc; [|done].
    destruct (utf8_encode s) as [b2|]; [|done].
    intros [= <-]. rewrite (utf8_decode_encode_char _ _ _ Hc).
    by rewrite (IH b2).
Qed.

Lemma bytes_decode_str_encode (s : str) (bs : bytes) :
  str_encode s = Return bs -> bytes_decode bs = Return s.
Proof.
  unfold str_encode, bytes_decode.
  destruct (utf8_encode s) as [b|] eqn:Hs; [|done].
  intros [= <-]. by rewrite (utf8_decode_encode _ _ Hs).
Qed.

(** ** The world *)

Lemma advance_0 (w : world) : advance 0 w = w.
Proof. destruct w as [e n]. unfold advance. simpl. f_equal. lia. Qed.

Lemma advance_advance (a b : nat) (w : world) :
  advance a (advance b w) = advance (b + a) w.
Proof. unfold advance. simpl. f_equal. lia. Qed.

Lemma M_bind_unfold {A B} (m : M A) (f : A -> M B) (w : world) :
  (m ≫= f) w =
  match m w with
  | (Return a, w') => f a w'
  | (Raise e, w') => (Raise e, w')
  end.
Proof. reflexivity. Qed.

(** ** The monadic map over [result] *)

Lemma mapM_result_app {A B} (f : A -> result B) (l1 l2 : list A) :
  mapM f (l1 ++ l2) =
  (k1 ← mapM f l1; k2 ← mapM f l2; mret (k1 ++ k2)).
Proof.
  induction l1 as [|x l1 IH]; simpl.
  - by destruct (mapM f l2).
  - destruct (f x); simpl; [|done]. rewrite IH.
    destruct (mapM f l1); simpl; [|done]. by destruct (mapM f l2).
Qed.

Lemma mapM_result_Forall2 {A B} (f : A -> result B) (l : list A) (k : list B) :
  mapM f l = Return k <-> Forall2 (fun x y => f x = Return y) l k.
Proof.
  revert k. induction l as [|x l IH]; intros k; simpl.
  - split; [intros [= <-]; constructor | by inversion 1].
  - split.
    + destruct (f x) as [y|] eqn:Hx; simpl; [|done].
      destruct (mapM f l) as [k'|]; simpl; [|done].
      intros [= <-]. constructor; [done | by apply IH].
    + inversion 1 as [|? y ? k' Hx Hl]; subst. rewrite Hx. simpl.
      apply IH in Hl. by rewrite Hl.
Qed.

Section CodecFacts.
Context {cipher : Cipher} {wire : Wire}.
Implicit Types (self : EncryptionCodec) (p e : Payload) (w : world).

(** *** [decode] *)

Lemma decode_loop_spec self (payloads acc : list Payload) w :
  decode_loop self payloads acc w =
  (app acc <$> mapM (decode_payload self) payloads, w).
Proof.
  revert acc. induction payloads as [|p rest IH]; intros acc; simpl.
  - unfold mret, M_ret. by rewrite app_nil_r.
  - unfold decode_payload, mbind, M_bind, lift.
    destruct (bytes_decode _) as [encoding|]; simpl; [|done].
    destruct (bool_decide (encoding ≠ _)); simpl.
    { rewrite IH. destruct (mapM _ rest); simpl; [|done].
      by rewrite <- app_assoc. }
    destruct (bytes_decode _) as [found|]; simpl; [|done].
    destruct (bool_decide (found ≠ _)); simpl; [done|].
    destruct (_decrypt self (data p)) as [plain|]; simpl; [|done].
    destruct (FromString plain) as [q|]; simpl; [|done].
    rewrite IH. destruct (mapM _ rest); simpl; [|done].
    by rewrite <- app_assoc.
Qed.

Lemma decode_spec self (payloads : list Payload) w :
  decode self payloads w = (mapM (decode_payload self) payloads, w).
Proof.
  unfold decode. rewrite decode_loop_spec.
  by destruct (mapM _ payloads).
Qed.

Lemma decode_singleton self p w :
  decode self [p] w = ((fun q => [q]) <$> decode_payload self p, w).
Proof. rewrite decode_spec. simpl. by destruct (decode_payload self p). Qed.


Lemma decode_aborts self e (x : exn) (before after : list Payload) w :
  decode_payload self e = Raise x ->
  (exists y, decode self (before ++ e :: after) w = (Raise y, w)) /\
  (forall qs, decode self before w = (Return qs, w) ->
              decode self (before ++ e :: after) w = (Raise x, w)).
Proof.
  intros He. rewrite !decode_spec, mapM_result_app. simpl. rewrite He.
  destruct (mapM _ before) as [qs|y]; simpl.
  - split; [by eexists | done].
  - split; [by eexists | by intros ? [=]].
Qed.

Lemma decode_passes self e q (before after : list Payload) w :
  decode_payload self e = Return q ->
  forall qs1 qs2,
    decode self before w = (Return qs1, w) ->
    decode self after w = (Return qs2, w) ->
    decode self (before ++ e :: after) w = (Return (qs1 ++ q :: qs2), w).
Proof.
  intros He qs1 qs2. rewrite !decode_spec, mapM_result_app. simpl.
  rewrite He. by intros [= ->] [= ->].
Qed.

(** *** [encode] *)

Lemma encode_cons self (kid : bytes) p (ps : list Payload) w :
  str_encode (key_id self) = Return kid ->
  encode self (p :: ps) w =
  match encode self ps (advance 12 w) with
  | (Return es, w') => (Return (envelope self kid p w :: es), w')
  | (Raise x, w') => (Raise x, w')
  end.
Proof.
  intros Hk. unfold encode.
  set (body := fun p : Payload => _).
  change (mapM body (p :: ps))
    with (x ← body p; xs ← mapM body ps; mret (x :: xs)).
  rewrite M_bind_unfold.
  assert (body p w = (Return (envelope self kid p w), advance 12 w)) as ->.
  { unfold body. rewrite M_bind_unfold. unfold lift. rewrite Hk.
    unfold _encrypt. by rewrite !M_bind_unfold. }
  rewrite M_bind_unfold.
  match goal with
  | |- context [match ?t with _ => _ end] => destruct t as [[es|x] w']
  end; done.
Qed.

Lemma encode_raises self (x : exn) p (ps : list Payload) w :
  str_encode (key_id self) = Raise x ->
  encode self (p :: ps) w = (Raise x, w).
Proof.
  intros Hk. unfold encode.
  set (body := fun p : Payload => _).
  change (mapM body (p :: ps))
    with (x ← body p; xs ← mapM body ps; mret (x :: xs)).
  rewrite M_bind_unfold. unfold body at 1. rewrite M_bind_unfold.
  unfold lift. by rewrite Hk.
Qed.

Lemma encode_spec self (kid : bytes) (ps : list Payload) w :
  str_encode (key_id self) = Return kid ->
  encode self ps w =
  (Return (imap (fun i p => envelope self kid p (advance (12 * i) w)) ps),
   advance (12 * length ps) w).
Proof.
  intros Hk. revert w. induction ps as [|p ps IH]; intros w.
  - unfold encode. cbn [mapM imap length]. unfold mret, M_ret.
    by rewrite advance_0.
  - rewrite (encode_cons _ _ _ _ _ Hk), IH. cbn [imap length].
    rewrite advance_0, advance_advance. f_equal; [f_equal|].
    + f_equal. apply imap_ext. intros i q _. simpl.
      rewrite advance_advance. do 2 f_equal. lia.
    + f_equal. lia.
Qed.

End CodecFacts.

(** ** The small instance meets the contracts *)

Lemma undigits_digits (n : positive) : undigits (digits n) = Some n.
Proof. induction n as [n IH|n IH|]; simpl; by rewrite ?IH. Qed.

Lemma digit_wire_correct : @wire_correct digit_wire.
Proof.
  intros p. simpl. rewrite undigits_digits. simpl.
  by rewrite decode_encode.
Qed.

Lemma checksum_cipher_correct : @aead_correct checksum_cipher.
Proof. intros key nonce msg _ _. simpl. by rewrite bool_decide_true. Qed.

Lemma flip_in_byte_neq (j : nat) (b : byte) : (j < 8)%nat -> flip_in_byte j b ≠ b.
Proof.
  intros Hj.
  do 8 (destruct j as [|j]; [destruct b; vm_compute; discriminate|]).
  lia.
Qed.

Lemma length_flip_bit (i : nat) (bs : bytes) : length (flip_bit i bs) = length bs.
Proof.
  revert i. induction bs as [|b bs IH]; intros i; simpl; [done|].
  destruct (i <? 8)%nat; simpl; by rewrite ?IH.
Qed.

Lemma flip_bit_app (i : nat) (a b : bytes) :
  flip_bit i (a ++ b) =
  if (i <? 8 * length a)%nat then flip_bit i a ++ b
  else a ++ flip_bit (i - 8 * length a) b.
Proof.
  revert i. induction a as [|x a IH]; intros i.
  - simpl. by rewrite Nat.sub_0_r.
  - cbn [app flip_bit length].
    destruct (Nat.ltb_spec i 8).
    + destruct (Nat.ltb_spec i (8 * S (length a))); [done | lia].
    + rewrite IH.
      destruct (Nat.ltb_spec (i - 8) (8 * length a)),
               (Nat.ltb_spec i (8 * S (length a))); try lia; simpl; [done|].
      do 3 f_equal. lia.
Qed.

Lemma byte_sum_app (a b : bytes) : byte_sum (a ++ b) = byte_sum a + byte_sum b.
Proof. induction a as [|x a IH]; simpl; [done|]. unfold byte_sum in *. simpl. lia. Qed.

Lemma byte_sum_flip_bit (i : nat) (bs : bytes) :
  (i < 8 * length bs)%nat ->
  exists rest x y,
    x < 256 /\ y < 256 /\ x ≠ y /\
    byte_sum bs = rest + x /\ byte_sum (flip_bit i bs) = rest + y.
Proof.
  revert i. induction bs as [|b bs IH]; intros i Hi; simpl in *; [lia|].
  destruct (Nat.ltb_spec i 8).
  - exists (byte_sum bs), (Byte.to_N b), (Byte.to_N (flip_in_byte i b)).
    repeat split; try apply byte_to_N_lt; try (unfold byte_sum; simpl; lia).
    intros Heq. apply (flip_in_byte_neq i b); [done|].
    assert (Byte.of_N (Byte.to_N (flip_in_byte i b)) = Byte.of_N (Byte.to_N b))
      as Hof by (by rewrite Heq).
    rewrite !Byte.of_to_N in Hof. by injection Hof.
  - destruct (IH (i - 8)%nat) as (rest & x & y & Hx & Hy & Hxy & H1 & H2); [lia|].
    exists (Byte.to_N b + rest), x, y. repeat split; try done.
    + change (byte_sum (b :: bs)) with (Byte.to_N b + byte_sum bs). lia.
    + change (byte_sum (b :: flip_bit (i - 8) bs))
        with (Byte.to_N b + byte_sum (flip_bit (i - 8) bs)). lia.
Qed.

Lemma checksum_flip_bit (i : nat) (a bs c : bytes) :
  (i < 8 * length bs)%nat ->
  checksum (a ++ bs ++ c) ≠ checksum (a ++ flip_bit i bs ++ c).
Proof.
  intros Hi Heq.
  destruct (byte_sum_flip_bit i bs Hi) as (rest & x & y & Hx & Hy & Hxy & H1 & H2).
  unfold checksum in Heq. apply (f_equal Byte.to_N) in Heq.
  rewrite !byte_of_N_to_N in Heq by lia.
  rewrite !byte_sum_app, H1, H2 in Heq. lia.
Qed.

Lemma checksum_cipher_authentic : @aead_authentic checksum_cipher.
Proof.
  intros key nonce msg i _ Hn Hi sealed. subst sealed. simpl in *.
  rewrite flip_bit_app, Hn.
  rewrite length_app in Hi. simpl in Hi.
  destruct (Nat.ltb_spec i (8 * 12)).
  - rewrite take_app_length' by (by rewrite length_flip_bit).
    rewrite drop_app_length' by (by rewrite length_flip_bit).
    rewrite bool_decide_false; [done|].
    apply checksum_flip_bit. lia.
  - rewrite take_app_length' by done. rewrite drop_app_length' by done.
    cbn [flip_bit]. destruct (Nat.ltb_spec (i - 8 * 12) 8).
    + rewrite bool_decide_false; [done|]. by apply flip_in_byte_neq.
    + rewrite bool_decide_false; [done|].
      pose proof (checksum_flip_bit (i - 8 * 12 - 8) (key ++ nonce) msg []) as Hc.
      rewrite !app_nil_r, <- !app_assoc in Hc. apply Hc. lia.
Qed.

(** ** Construction *)

Lemma __init___32 (kid : str) (key : bytes) :
  length key = 32%nat ->
  __init__ kid key = Return {| key_id := kid; _encryptor := {| aes_key := key |} |}.
Proof.
  intros Hk. unfold __init__, AESGCM. rewrite Hk.
  rewrite bool_decide_false by (intros Hne; by apply Hne).
  by rewrite bool_decide_true by set_solver.
Qed.

Lemma __init___key (kid : str) (key : bytes) c :
  __init__ kid key = Return c ->
  length key = 32%nat /\ key_id c = kid /\ aes_key (_encryptor c) = key.
Proof.
  destruct (decide (length key = 32%nat)) as [Hlen|Hlen].
  - rewrite (__init___32 kid key Hlen). by intros [= <-].
  - unfold __init__. by rewrite bool_decide_true.
Qed.

(** C4.  Construction checks the key before anything else: with a key
    of any length but 32 bytes it raises the [ValueError] of the source (the
    specification's ConfigurationError) and no codec exists to call
    [encode] or [decode] on; with 32 bytes it returns the codec holding that
    identifier and key.  Every codec it returns holds a 32-byte key. *)
Theorem key_length_validation (kid : str) (key : bytes) :
  (length key ≠ 32%nat ->
   __init__ kid key = Raise (ValueError [Lit "Key must be 32 bytes for AES-256-GCM"])) /\
  (length key = 32%nat ->
   exists c, __init__ kid key = Return c /\
             key_id c = kid /\ aes_key (_encryptor c) = key) /\
  (forall c, __init__ kid key = Return c ->
             length (aes_key (_encryptor c)) = 32%nat).
Proof.
  split; [|split].
  - intros Hne. unfold __init__. by rewrite bool_decide_true.
  - intros Hlen. eexists. by split; [apply __init___32|].
  - intros c Hc. apply __init___key in Hc as (Hlen & _ & ->). done.
Qed.

(** ** Key provisioning *)

Lemma bytes_fromhex_raises (s : str) :
  (forall x, bytes_fromhex s = Raise x -> x = fromhex_error) /\
  (forall c x, bytes_fromhex (c :: s) = Raise x -> x = fromhex_error).
Proof.
  induction s as [|d s [IH1 IH2]].
  - split; [done|]. intros c x. simpl.
    destruct (Py_ISSPACE c); [done|]. destruct (hex_digit c); by intros [= <-].
  - split; [apply IH2|]. intros c x.
    change (bytes_fromhex (c :: d :: s)) with
      (if Py_ISSPACE c then bytes_fromhex (d :: s)
       else match hex_digit c with
            | Some top =>
                match hex_digit d with
                | Some bot => cons (byte_of_N (top * 16 + bot)) <$> bytes_fromhex s
                | None => Raise fromhex_error
                end
            | None => Raise fromhex_error
            end).
    destruct (Py_ISSPACE c); [apply IH2|].
    destruct (hex_digit c); [|by intros [= <-]].
    destruct (hex_digit d); [|by intros [= <-]].
    destruct (bytes_fromhex s) eqn:Hs; [done|].
    simpl. intros [= <-]. by apply IH1.
Qed.

Lemma __init___raises (kid : str) (key : bytes) (x : exn) :
  __init__ kid key = Raise x -> exists msg, x = ValueError msg.
Proof.
  destruct (decide (length key = 32%nat)) as [Hlen|Hlen].
  - by rewrite (__init___32 kid key Hlen).
  - unfold __init__. rewrite bool_decide_true by done. intros [= <-]. by eexists.
Qed.

Lemma agree_up_to_message_refl {A} (r : result A) : agree_up_to_message r r.
Proof. destruct r as [a|[]]; done. Qed.

Lemma bytes_fromhex_hex_byte (b : byte) (s : str) :
  bytes_fromhex (hex_char (Byte.to_N b / 16) :: hex_char (Byte.to_N b mod 16) :: s)
  = cons b <$> bytes_fromhex s.
Proof. destruct b; reflexivity. Qed.

Lemma bytes_fromhex_hex (bs : bytes) : bytes_fromhex (bytes_hex bs) = Return bs.
Proof.
  induction bs as [|b bs IH]; [done|].
  change (bytes_hex (b :: bs))
    with (hex_char (Byte.to_N b / 16) :: hex_char (Byte.to_N b mod 16) :: bytes_hex bs).
  by rewrite bytes_fromhex_hex_byte, IH.
Qed.

Lemma length_bytes_hex (bs : bytes) : length (bytes_hex bs) = (2 * length bs)%nat.
Proof. induction bs as [|b bs IH]; [done|]. simpl in *. rewrite IH. lia. Qed.

Lemma hex_digit_spec (c v : N) :
  hex_digit c = Some v ->
  v < 16 /\ Py_ISSPACE c = false /\ hex_char v = lower_hex c.
Proof.
  unfold hex_digit, Py_ISSPACE, hex_char, lower_hex.
  destruct (N.leb_spec 48 c), (N.leb_spec c 57); simpl.
  all: try (intros [= <-]; split; [lia|]; split;
            [destruct (N.eqb_spec c 32); [lia|]; split_tests; done
            |split_tests; simpl; lia]).
  all: destruct (N.leb_spec 97 c), (N.leb_spec c 102); simpl.
  all: try (intros [= <-]; split; [lia|]; split;
            [destruct (N.eqb_spec c 32); [lia|]; split_tests; done
            |split_tests; simpl; lia]).
  all: destruct (N.leb_spec 65 c), (N.leb_spec c 70); simpl; try done.
  all: intros [= <-]; split; [lia|]; split;
         [destruct (N.eqb_spec c 32); [lia|]; split_tests; done
         |split_tests; simpl; lia].
Qed.

Lemma bytes_hex_pair (top bot : N) :
  top < 16 -> bot < 16 ->
  Byte.to_N (byte_of_N (top * 16 + bot)) / 16 = top /\
  Byte.to_N (byte_of_N (top * 16 + bot)) mod 16 = bot.
Proof. intros Ht Hb. rewrite byte_of_N_to_N by lia. lia. Qed.

(** What [bytes.fromhex] accepts, it decodes digit for digit: written
    back in hexadecimal, the bytes are the string it was given, white space
    and letter case apart. *)
Lemma bytes_hex_fromhex (s : str) :
  (forall bs, bytes_fromhex s = Return bs -> bytes_hex bs = hex_normal s) /\
  (forall c bs, bytes_fromhex (c :: s) = Return bs ->
                bytes_hex bs = hex_normal (c :: s)).
Proof.
  induction s as [|d s [IH1 IH2]].
  - split; [by intros bs [= <-]|]. intros c bs. simpl.
    destruct (Py_ISSPACE c); [by intros [= <-]|]. by destruct (hex_digit c).
  - split; [apply IH2|]. intros c bs.
    change (bytes_fromhex (c :: d :: s)) with
      (if Py_ISSPACE c then bytes_fromhex (d :: s)
       else match hex_digit c with
            | Some top =>
                match hex_digit d with
                | Some bot => cons (byte_of_N (top * 16 + bot)) <$> bytes_fromhex s
                | None => Raise fromhex_error
                end
            | None => Raise fromhex_error
            end).
    change (hex_normal (c :: d :: s)) with
      (if Py_ISSPACE c then hex_normal (d :: s)
       else lower_hex c :: hex_normal (d :: s)).
    destruct (Py_ISSPACE c) eqn:Hc; [apply IH2|].
    destruct (hex_digit c) as [top|] eqn:Htop; [|done].
    destruct (hex_digit d) as [bot|] eqn:Hbot; [|done].
    destruct (bytes_fromhex s) as [bs'|] eqn:Hs; [|done].
    simpl. intros [= <-].
    apply hex_digit_spec in Htop as (Ht & _ & Htc).
    apply hex_digit_spec in Hbot as (Hb & Hd & Hbc).
    rewrite Hd.
    change (bytes_hex (byte_of_N (top * 16 + bot) :: bs')) with
      (hex_char (Byte.to_N (byte_of_N (top * 16 + bot)) / 16)
       :: hex_char (Byte.to_N (byte_of_N (top * 16 + bot)) mod 16)
       :: bytes_hex bs').
    destruct (bytes_hex_pair top bot Ht Hb) as [-> ->].
    by rewrite Htc, Hbc, (IH1 bs').
Qed.

(** C8.  [load_encryption_codec] reads the key from the environment.
    With the key variable absent it raises the [ValueError] of the source
    (the specification's ConfigurationError).  With the variable present it
    is the hexadecimal decoding of the value handed to the constructor,
    together with the identifier variable or [default-key] when that one is
    absent; for the empty value the source raises its own error before
    decoding, where decoding would have given an empty key and the
    constructor's error, so the outcomes agree except for the text of the
    [ValueError].  Whatever goes wrong is a [ValueError].

    The decoding is the hexadecimal one, digit for digit.  A variable
    holding the hexadecimal digits of a 32-byte key gives the codec with
    exactly that key, and of any other key a [ValueError].  Whenever a
    codec is returned, its key has 32 bytes and, written back in
    hexadecimal, is the value of the variable with white space dropped and
    letters in lower case. *)
Theorem key_provisioning (environ : gmap str str) :
  let kid := default (str_lit "default-key")
                     (environ !! str_lit "TEMPORAL_ENCRYPTION_KEY_ID") in
  (environ !! str_lit "TEMPORAL_ENCRYPTION_KEY" = None ->
   load_encryption_codec environ =
     Raise (ValueError [Lit "TEMPORAL_ENCRYPTION_KEY environment variable not set"])) /\
  (forall key_hex,
     environ !! str_lit "TEMPORAL_ENCRYPTION_KEY" = Some key_hex ->
     agree_up_to_message (load_encryption_codec environ)
                         (bytes_fromhex key_hex ≫= __init__ kid) /\
     (key_hex ≠ [] ->
      load_encryption_codec environ = bytes_fromhex key_hex ≫= __init__ kid)) /\
  (forall c,
     load_encryption_codec environ = Return c ->
     key_id c = kid /\
     (environ !! str_lit "TEMPORAL_ENCRYPTION_KEY_ID" = None ->
      key_id c = str_lit "default-key")) /\
  (forall x, load_encryption_codec environ = Raise x -> exists msg, x = ValueError msg) /\
  (forall key,
     environ !! str_lit "TEMPORAL_ENCRYPTION_KEY" = Some (bytes_hex key) ->
     (length key = 32%nat ->
      load_encryption_codec environ =
        Return {| key_id := kid; _encryptor := {| aes_key := key |} |}) /\
     (length key ≠ 32%nat ->
      exists msg, load_encryption_codec environ = Raise (ValueError msg))) /\
  (forall key_hex c,
     environ !! str_lit "TEMPORAL_ENCRYPTION_KEY" = Some key_hex ->
     load_encryption_codec environ = Return c ->
     length (aes_key (_encryptor c)) = 32%nat /\
     bytes_hex (aes_key (_encryptor c)) = hex_normal key_hex).
Proof.
  intros kid.
  assert (forall key_hex,
            environ !! str_lit "TEMPORAL_ENCRYPTION_KEY" = Some key_hex ->
            key_hex ≠ [] ->
            load_encryption_codec environ = bytes_fromhex key_hex ≫= __init__ kid)
    as Hbody.
  { intros key_hex Hk Hne. unfold load_encryption_codec. rewrite Hk.
    by destruct key_hex. }
  split; [|split; [|split; [|split; [|split]]]].
  - intros Hk. unfold load_encryption_codec. by rewrite Hk.
  - intros key_hex Hk. split; [|by apply Hbody].
    destruct key_hex as [|h k].
    + unfold load_encryption_codec. by rewrite Hk.
    + rewrite (Hbody _ Hk) by done. apply agree_up_to_message_refl.
  - intros c Hc.
    assert (key_id c = kid) as Hid.
    { unfold load_encryption_codec in Hc.
      destruct (environ !! str_lit "TEMPORAL_ENCRYPTION_KEY") as [[|h k]|];
        [done| |done].
      destruct (bytes_fromhex (h :: k)) as [key|]; [|done].
      simpl in Hc. by apply __init___key in Hc as (_ & Hid & _). }
    split; [done|]. intros Hnone. rewrite Hid. unfold kid. by rewrite Hnone.
  - intros x Hx. unfold load_encryption_codec in Hx.
    destruct (environ !! str_lit "TEMPORAL_ENCRYPTION_KEY") as [[|h k]|].
    + injection Hx as <-. by eexists.
    + destruct (bytes_fromhex (h :: k)) as [key|y] eqn:Hhex.
      * simpl in Hx. by apply __init___raises in Hx.
      * simpl in Hx. injection Hx as <-.
        apply bytes_fromhex_raises in Hhex as ->. by eexists.
    + injection Hx as <-. by eexists.
  - intros key Hk. split.
    + intros Hlen. rewrite (Hbody _ Hk).
      * rewrite bytes_fromhex_hex. simpl. by apply __init___32.
      * intros Hnil. apply (f_equal length) in Hnil.
        rewrite length_bytes_hex, Hlen in Hnil. done.
    + intros Hlen. destruct key as [|b key].
      * unfold load_encryption_codec. rewrite Hk. by eexists.
      * rewrite (Hbody _ Hk) by done. rewrite bytes_fromhex_hex. simpl.
        unfold __init__. rewrite bool_decide_true by done. by eexists.
  - intros key_hex c Hk Hc.
    destruct key_hex as [|h k].
    { unfold load_encryption_codec in Hc. by rewrite Hk in Hc. }
    rewrite (Hbody _ Hk) in Hc by done.
    destruct (bytes_fromhex (h :: k)) as [key|] eqn:Hhex; [|done].
    simpl in Hc. apply __init___key in Hc as (Hlen & _ & ->).
    split; [done|]. by apply bytes_hex_fromhex.
Qed.

(** ** The codec on the envelopes it builds *)

Section Claims.
Context {cipher : Cipher} {wire : Wire}.
Implicit Types (self c : EncryptionCodec) (p e : Payload) (w : world).

Lemma envelope_recognised self (kid : bytes) p w :
  bytes_decode
    (default [] (metadata (envelope self kid p w) !! str_lit "encoding"))
  = Return (str_lit "binary/encrypted").
Proof. done. Qed.

Lemma envelope_key_id self (kid : bytes) p w :
  default [] (metadata (envelope self kid p w) !! str_lit "encryption-key-id")
  = kid.
Proof. unfold envelope. simpl. by rewrite lookup_insert_ne, lookup_singleton_eq. Qed.

Lemma decode_payload_envelope self (kid : bytes) p w :
  str_encode (key_id self) = Return kid ->
  decode_payload self (envelope self kid p w)
  = _decrypt self (data (envelope self kid p w)) ≫= FromString.
Proof.
  intros Hk. unfold decode_payload.
  rewrite envelope_recognised, envelope_key_id, (bytes_decode_str_encode _ _ Hk).
  simpl. by rewrite bool_decide_false by (intros Hne; by apply Hne).
Qed.

Lemma length_nonce w : length (map (entropy w) (seq (consumed w) 12)) = 12%nat.
Proof. by rewrite length_map, length_seq. Qed.

Lemma _decrypt_envelope self (kid : bytes) p w :
  aead_correct -> length (aes_key (_encryptor self)) = 32%nat ->
  _decrypt self (data (envelope self kid p w)) = Return (SerializeToString p).
Proof.
  intros Ha Hk. unfold _decrypt, envelope. cbn [data].
  pose proof (length_nonce w) as Hn. set (nonce := map _ _) in *.
  rewrite take_app_length', drop_app_length' by done.
  by apply Ha.
Qed.

(** C1, as amended.  For every payload and every codec built from a
    32-byte key and a key identifier that [str.encode] accepts (no lone
    surrogate), [encode] of the one-payload batch returns, and [decode] of
    what it returned gives back exactly that payload, whatever the state
    of the entropy device at either call.  The cipher and the wire format
    are assumed to invert themselves. *)
Theorem round_trip (kid : str) (kb key : bytes) p w :
  aead_correct -> wire_correct ->
  length key = 32%nat -> str_encode kid = Return kb ->
  exists c es,
    __init__ kid key = Return c /\
    encode c [p] w = (Return es, advance 12 w) /\
    forall w', decode c es w' = (Return [p], w').
Proof.
  intros Ha Hw Hlen Hk.
  eexists _, _. split; [by apply __init___32|].
  split; [by rewrite (encode_spec _ kb)|].
  intros w'. cbn [imap]. rewrite decode_singleton.
  rewrite decode_payload_envelope, _decrypt_envelope by done.
  simpl. by rewrite Hw.
Qed.


Lemma decode_payload_tamper self (kid : bytes) p w (i : nat) :
  str_encode (key_id self) = Return kid ->
  decode_payload self (tamper i (envelope self kid p w))
  = _decrypt self (flip_bit i (data (envelope self kid p w))) ≫= FromString.
Proof.
  intros Hk. unfold decode_payload, tamper. cbn [metadata data].
  rewrite envelope_recognised, envelope_key_id, (bytes_decode_str_encode _ _ Hk).
  simpl. by rewrite bool_decide_false by (intros Hne; by apply Hne).
Qed.

(** C2.  Take an envelope [e] that [encode] produced and flip any one bit
    of its data.  [decode] of the tampered envelope raises [InvalidTag]
    (the specification's IntegrityError); any batch that holds it fails as
    a whole, so no plaintext is returned, and fails with [InvalidTag]
    when the envelopes before it decode.  The cipher is assumed to reject
    a sealed text with one bit flipped. *)
Theorem tamper_detection (kid : str) (key : bytes) c p e w w0 (i : nat)
    (before after : list Payload) w' :
  aead_authentic ->
  __init__ kid key = Return c ->
  encode c [p] w = (Return [e], w0) ->
  (i < 8 * length (data e))%nat ->
  decode c [tamper i e] w' = (Raise InvalidTag, w') /\
  (exists x, decode c (before ++ tamper i e :: after) w' = (Raise x, w')) /\
  (forall qs, decode c before w' = (Return qs, w') ->
     decode c (before ++ tamper i e :: after) w' = (Raise InvalidTag, w')).
Proof.
  intros Ha Hc He Hi.
  apply __init___key in Hc as (Hlen & _ & Hkey).
  destruct (str_encode (key_id c)) as [kb|x] eqn:Hk;
    [|by rewrite (encode_raises _ x) in He].
  rewrite (encode_spec _ kb) in He by done. cbn [imap] in He.
  rewrite advance_0 in He. injection He as <- _.
  assert (decode_payload c (tamper i (envelope c kb p w)) = Raise InvalidTag)
    as Hbad.
  { rewrite decode_payload_tamper by done. unfold _decrypt.
    unfold envelope in *. cbn [data] in *.
    rewrite Ha; [done | by rewrite Hkey | apply length_nonce | done]. }
  split; [by rewrite decode_singleton, Hbad|].
  by apply decode_aborts.
Qed.

Lemma decode_payload_mismatch c e (found : str) :
  metadata e !! str_lit "encoding" = Some (bytes_lit "binary/encrypted") ->
  bytes_decode (default [] (metadata e !! str_lit "encryption-key-id"))
    = Return found ->
  found ≠ key_id c ->
  decode_payload c e =
  Raise (ValueError [Lit "Unknown key ID "; Repr found;
                     Lit ", expected "; Repr (key_id c)]).
Proof.
  intros Hm Hf Hne. unfold decode_payload. rewrite Hm, Hf. simpl.
  by rewrite bool_decide_true.
Qed.

(** C3, as amended.  Take an envelope with the recognised marker whose
    key-id field decodes as UTF-8 (an absent field reads as the empty
    identifier) to an identifier other than the codec's.  [decode] of it
    raises the [ValueError] that names the found and the expected
    identifier (the specification's KeyMismatchError); any batch that
    holds it fails as a whole, so no partial result is returned, and fails
    with that error when the envelopes before it decode.  The envelope's
    data and the cipher play no part: the statement holds for every
    cipher and every data. *)
Theorem key_mismatch_rejection c e (found : str)
    (before after : list Payload) w :
  metadata e !! str_lit "encoding" = Some (bytes_lit "binary/encrypted") ->
  bytes_decode (default [] (metadata e !! str_lit "encryption-key-id"))
    = Return found ->
  found ≠ key_id c ->
  let mismatch := ValueError [Lit "Unknown key ID "; Repr found;
                              Lit ", expected "; Repr (key_id c)] in
  decode c [e] w = (Raise mismatch, w) /\
  (exists x, decode c (before ++ e :: after) w = (Raise x, w)) /\
  (forall qs, decode c before w = (Return qs, w) ->
     decode c (before ++ e :: after) w = (Raise mismatch, w)).
Proof.
  intros Hm Hf Hne mismatch.
  pose proof (decode_payload_mismatch c e found Hm Hf Hne) as Hbad.
  split; [by rewrite decode_singleton, Hbad|].
  by apply decode_aborts.
Qed.

Lemma decode_skips c p (before after : list Payload) w :
  decode_payload c p = Return p ->
  decode c [p] w = (Return [p], w) /\
  (forall qs1 qs2,
     decode c before w = (Return qs1, w) ->
     decode c after w = (Return qs2, w) ->
     decode c (before ++ p :: after) w = (Return (qs1 ++ p :: qs2), w)) /\
  (forall x, decode c (before ++ p :: after) w = (Raise x, w) <->
             decode c (before ++ after) w = (Raise x, w)).
Proof.
  intros Hp. split; [by rewrite decode_singleton, Hp|].
  split; [by apply decode_passes|].
  intros x. rewrite !decode_spec, !mapM_result_app. simpl. rewrite Hp. simpl.
  destruct (mapM _ before); simpl; [|done].
  by destruct (mapM _ after).
Qed.

(** C5, as amended.  An envelope whose marker decodes as UTF-8 (an absent
    marker reads as the empty text) to anything but [binary/encrypted] is
    returned by [decode] unchanged; in a batch it keeps its place between
    the payloads of its neighbours, and it is never the reason a batch
    fails: the batch fails exactly when it would fail without that
    envelope. *)
Theorem pass_through c p (marker : str) (before after : list Payload) w :
  bytes_decode (default [] (metadata p !! str_lit "encoding")) = Return marker ->
  marker ≠ str_lit "binary/encrypted" ->
  decode c [p] w = (Return [p], w) /\
  (forall qs1 qs2,
     decode c before w = (Return qs1, w) ->
     decode c after w = (Return qs2, w) ->
     decode c (before ++ p :: after) w = (Return (qs1 ++ p :: qs2), w)) /\
  (forall x, decode c (before ++ p :: after) w = (Raise x, w) <->
             decode c (before ++ after) w = (Raise x, w)).
Proof.
  intros Hm Hne. apply decode_skips.
  unfold decode_payload. rewrite Hm. simpl. by rewrite bool_decide_true.
Qed.

(** C10.  An envelope with no [encoding] entry in its metadata is read as
    carrying the empty marker, which is not [binary/encrypted]: [decode]
    returns it unchanged, in its place, and it never makes a batch
    fail. *)
Theorem missing_encoding_passes_through c p (before after : list Payload) w :
  metadata p !! str_lit "encoding" = None ->
  decode c [p] w = (Return [p], w) /\
  (forall qs1 qs2,
     decode c before w = (Return qs1, w) ->
     decode c after w = (Return qs2, w) ->
     decode c (before ++ p :: after) w = (Return (qs1 ++ p :: qs2), w)) /\
  (forall x, decode c (before ++ p :: after) w = (Raise x, w) <->
             decode c (before ++ after) w = (Raise x, w)).
Proof.
  intros Hm. apply decode_skips.
  unfold decode_payload. by rewrite Hm.
Qed.


(** C6.  A codec whose key identifier encodes to [kb] turns a payload
    into one envelope: its metadata holds the marker [binary/encrypted]
    under [encoding] and [kb] under [encryption-key-id], and its data is
    the next 12 unread bytes of the entropy device, the nonce, followed
    by what the cipher returns for key, nonce and the serialised payload;
    the device has then been read 12 bytes further.  [decode] of an
    envelope with that marker and the codec's key identifier hands the
    cipher the first 12 bytes of the data as nonce and the rest as sealed
    text, and parses what the cipher returns. *)
Theorem envelope_wire_shape c (kb : bytes) p w :
  str_encode (key_id c) = Return kb ->
  let nonce := map (entropy w) (seq (consumed w) 12) in
  let sealed :=
    AESGCM_encrypt (aes_key (_encryptor c)) nonce (SerializeToString p) in
  encode c [p] w =
    (Return [ {| metadata := {[ str_lit "encoding" := bytes_lit "binary/encrypted";
                                str_lit "encryption-key-id" := kb ]};
                 data := nonce ++ sealed |} ],
     advance 12 w) /\
  length nonce = 12%nat /\
  (forall e w',
     metadata e !! str_lit "encoding" = Some (bytes_lit "binary/encrypted") ->
     bytes_decode (default [] (metadata e !! str_lit "encryption-key-id"))
       = Return (key_id c) ->
     decode c [e] w' =
       ((fun q => [q]) <$>
          (AESGCM_decrypt (aes_key (_encryptor c))
                          (take 12 (data e)) (drop 12 (data e))
           ≫= FromString),
        w')).
Proof.
  intros Hk nonce sealed. split; [|split].
  - rewrite (encode_spec _ kb) by done. cbn [imap]. by rewrite advance_0.
  - apply length_nonce.
  - intros e w' Hm Hf. rewrite decode_singleton. unfold decode_payload.
    rewrite Hm, Hf. simpl.
    by rewrite bool_decide_false by (intros Hne; by apply Hne).
Qed.

Lemma mapM_result_total {A B} (f : A -> result B) (l : list A) :
  (forall x, x ∈ l -> exists y, f x = Return y) ->
  exists k, mapM f l = Return k.
Proof.
  induction l as [|x l IH]; intros Hl; simpl; [by eexists|].
  destruct (Hl x) as [y ->]; [left|].
  destruct IH as [k ->]; [|by eexists].
  intros z Hz. apply Hl. by right.
Qed.

(** C7.  [encode] and [decode] work through a batch position by
    position.  When [encode] returns, there are as many envelopes as
    payloads, and envelope [i] is what [encode] makes of payload [i] alone
    at the moment the entropy device has been read [12 * i] bytes
    further.  When [decode] returns, there are as many payloads as
    envelopes, and payload [i] is what [decode] makes of envelope [i]
    alone.  [encode] returns whenever the key identifier encodes, and
    [decode] whenever each envelope decodes alone. *)
Theorem order_preservation c (payloads : list Payload) w :
  (forall es w',
     encode c payloads w = (Return es, w') ->
     length es = length payloads /\
     forall i p, payloads !! i = Some p ->
       exists e, es !! i = Some e /\
         encode c [p] (advance (12 * i) w) = (Return [e], advance (12 * S i) w)) /\
  (forall qs w',
     decode c payloads w = (Return qs, w') ->
     length qs = length payloads /\
     forall i e, payloads !! i = Some e ->
       exists q, qs !! i = Some q /\
         forall w0, decode c [e] w0 = (Return [q], w0)) /\
  (forall kb, str_encode (key_id c) = Return kb ->
     exists es,
       encode c payloads w = (Return es, advance (12 * length payloads) w)) /\
  ((forall e, e ∈ payloads -> exists q, decode c [e] w = (Return [q], w)) ->
     exists qs, decode c payloads w = (Return qs, w)).
Proof.
  split; [|split; [|split]].
  - intros es w' He.
    destruct (str_encode (key_id c)) as [kb|x] eqn:Hk.
    + rewrite (encode_spec _ kb) in He by done. injection He as <- _.
      split; [apply length_imap|]. intros i p Hp.
      exists (envelope c kb p (advance (12 * i) w)). split.
      * by rewrite list_lookup_imap, Hp.
      * rewrite (encode_spec _ kb) by done. cbn [imap length].
        rewrite advance_0, advance_advance. do 2 f_equal. lia.
    + destruct payloads as [|p ps]; [by injection He as <-|].
      by rewrite (encode_raises _ x) in He.
  - intros qs w' Hd. rewrite decode_spec in Hd. injection Hd as Hd _.
    apply mapM_result_Forall2 in Hd.
    split; [symmetry; by eapply Forall2_length|].
    intros i e He.
    destruct (Forall2_lookup_l _ _ _ _ _ Hd He) as (q & Hq & Hdq).
    exists q. split; [done|]. intros w0. by rewrite decode_singleton, Hdq.
  - intros kb Hk. eexists. by apply encode_spec.
  - intros Hall.
    destruct (mapM_result_total (decode_payload c) payloads) as [qs Hqs].
    + intros e He. destruct (Hall e He) as [q Hq].
      rewrite decode_singleton in Hq.
      destruct (decode_payload c e) as [q'|]; [by eexists | done].
    + exists qs. by rewrite decode_spec, Hqs.
Qed.

(** X1.  A batch in which no envelope carries the marker comes back from
    [decode] as it went in. *)
Theorem decode_plain_batch c (payloads : list Payload) w :
  Forall (fun p => exists marker,
            bytes_decode (default [] (metadata p !! str_lit "encoding"))
              = Return marker /\
            marker ≠ str_lit "binary/encrypted") payloads ->
  decode c payloads w = (Return payloads, w).
Proof.
  intros Hall. rewrite decode_spec. f_equal.
  apply mapM_result_Forall2.
  induction Hall as [|p ps (marker & Hm & Hne) _ IH]; constructor; [|done].
  unfold decode_payload. rewrite Hm. simpl. by rewrite bool_decide_true.
Qed.

(** C9.  What [decode] returns or raises for a sequence of envelopes is
    fixed by the codec and the envelopes alone: it is the same whatever
    the state of the process when it is called, and the call leaves that
    state as it was, so a replay gives the same payloads again. *)
Theorem decode_deterministic c (payloads : list Payload) :
  exists r, forall w, decode c payloads w = (r, w).
Proof. exists (mapM (decode_payload c) payloads). apply decode_spec. Qed.

End Claims.

(** C1 as stated fails: a codec whose key identifier holds a lone
    surrogate is built without complaint from a 32-byte key, and its
    [encode] raises [UnicodeEncodeError] on every payload, whatever the
    cipher and the wire format. *)
Lemma round_trip_surrogate_key_id :
  exists c,
    __init__ [0xD800] zero_key = Return c /\
    forall (cipher : Cipher) (wire : Wire) (p : Payload) (w : world),
      encode c [p] w = (Raise UnicodeEncodeError, w).
Proof.
  eexists. split; [reflexivity|].
  intros cipher wire p w. by apply encode_raises.
Qed.

Lemma round_trip_witness :
  exists c es,
    __init__ (str_lit "default-key") zero_key = Return c /\
    encode c [ping] counting = (Return es, advance 12 counting) /\
    forall w', decode c es w' = (Return [ping], w').
Proof.
  apply (round_trip (str_lit "default-key") (bytes_lit "default-key")).
  - apply checksum_cipher_correct.
  - apply digit_wire_correct.
  - reflexivity.
  - reflexivity.
Defined.

(** ** The statements at work on the scenario *)

Lemma tamper_detection_witness :
  decode default_codec [tamper 100 sealed_ping] quiet = (Raise InvalidTag, quiet) /\
  (exists x,
     decode default_codec ([ping] ++ tamper 100 sealed_ping :: [pong]) quiet
     = (Raise x, quiet)) /\
  (forall qs,
     decode default_codec [ping] quiet = (Return qs, quiet) ->
     decode default_codec ([ping] ++ tamper 100 sealed_ping :: [pong]) quiet
     = (Raise InvalidTag, quiet)).
Proof.
  apply (tamper_detection (str_lit "default-key") zero_key default_codec ping
           sealed_ping counting (advance 12 counting) 100 [ping] [pong] quiet).
  - apply checksum_cipher_authentic.
  - reflexivity.
  - reflexivity.
  - apply Nat.ltb_lt. reflexivity.
Defined.

(** C3 as stated fails: the envelope [binary_key_id] carries the
    recognised marker and a key-id field, the byte [0xff], that is not the
    codec's identifier; [decode] raises [UnicodeDecodeError], which names
    neither identifier. *)
Lemma key_mismatch_binary_key_id :
  metadata binary_key_id !! str_lit "encoding" = Some (bytes_lit "binary/encrypted") /\
  metadata binary_key_id !! str_lit "encryption-key-id" = Some [xff] /\
  str_encode (key_id default_codec) ≠ Return [xff] /\
  forall (cipher : Cipher) (wire : Wire) (w : world),
    decode default_codec [binary_key_id] w = (Raise UnicodeDecodeError, w).
Proof.
  split; [reflexivity|]. split; [reflexivity|]. split; [discriminate|].
  intros cipher wire w. by rewrite decode_singleton.
Qed.

Lemma key_mismatch_rejection_witness :
  let mismatch := ValueError [Lit "Unknown key ID "; Repr (str_lit "old-key");
                              Lit ", expected "; Repr (str_lit "default-key")] in
  decode default_codec [foreign] quiet = (Raise mismatch, quiet) /\
  (exists x, decode default_codec ([ping] ++ foreign :: [pong]) quiet = (Raise x, quiet)) /\
  (forall qs,
     decode default_codec [ping] quiet = (Return qs, quiet) ->
     decode default_codec ([ping] ++ foreign :: [pong]) quiet = (Raise mismatch, quiet)).
Proof.
  apply (key_mismatch_rejection default_codec foreign (str_lit "old-key")
           [ping] [pong] quiet).
  - reflexivity.
  - reflexivity.
  - discriminate.
Defined.

Lemma key_length_validation_witness :
  __init__ (str_lit "default-key") (replicate 31 x00)
    = Raise (ValueError [Lit "Key must be 32 bytes for AES-256-GCM"]) /\
  __init__ (str_lit "default-key") (replicate 33 x00)
    = Raise (ValueError [Lit "Key must be 32 bytes for AES-256-GCM"]) /\
  exists c, __init__ (str_lit "default-key") zero_key = Return c /\
            key_id c = str_lit "default-key" /\ aes_key (_encryptor c) = zero_key.
Proof.
  split; [|split].
  - apply (key_length_validation (str_lit "default-key") (replicate 31 x00)).
    discriminate.
  - apply (key_length_validation (str_lit "default-key") (replicate 33 x00)).
    discriminate.
  - apply (key_length_validation (str_lit "default-key") zero_key).
    reflexivity.
Defined.

(** C5 as stated fails: the marker of [binary_marker], the byte [0xff],
    is not [binary/encrypted], and [decode] raises [UnicodeDecodeError]
    instead of returning the envelope, for every codec. *)
Lemma pass_through_binary_marker :
  metadata binary_marker !! str_lit "encoding" = Some [xff] /\
  [xff] ≠ bytes_lit "binary/encrypted" /\
  forall (cipher : Cipher) (wire : Wire) (c : EncryptionCodec) (w : world),
    decode c [binary_marker] w = (Raise UnicodeDecodeError, w).
Proof.
  split; [reflexivity|]. split; [discriminate|].
  intros cipher wire c w. by rewrite decode_singleton.
Qed.

Lemma pass_through_witness :
  decode default_codec [ping] quiet = (Return [ping], quiet) /\
  (forall qs1 qs2,
     decode default_codec [sealed_ping] quiet = (Return qs1, quiet) ->
     decode default_codec [bare] quiet = (Return qs2, quiet) ->
     decode default_codec ([sealed_ping] ++ ping :: [bare]) quiet
     = (Return (qs1 ++ ping :: qs2), quiet)) /\
  (forall x,
     decode default_codec ([sealed_ping] ++ ping :: [bare]) quiet = (Raise x, quiet) <->
     decode default_codec ([sealed_ping] ++ [bare]) quiet = (Raise x, quiet)).
Proof.
  apply (pass_through default_codec ping (str_lit "binary/plain")
           [sealed_ping] [bare] quiet).
  - reflexivity.
  - discriminate.
Defined.

Lemma missing_encoding_witness :
  decode default_codec [bare] quiet = (Return [bare], quiet) /\
  (forall qs1 qs2,
     decode default_codec [sealed_ping] quiet = (Return qs1, quiet) ->
     decode default_codec [ping] quiet = (Return qs2, quiet) ->
     decode default_codec ([sealed_ping] ++ bare :: [ping]) quiet
     = (Return (qs1 ++ bare :: qs2), quiet)) /\
  (forall x,
     decode default_codec ([sealed_ping] ++ bare :: [ping]) quiet = (Raise x, quiet) <->
     decode default_codec ([sealed_ping] ++ [ping]) quiet = (Raise x, quiet)).
Proof.
  apply (missing_encoding_passes_through default_codec bare [sealed_ping] [ping] quiet).
  reflexivity.
Defined.

Lemma envelope_wire_shape_witness :
  encode default_codec [ping] counting = (Return [sealed_ping], advance 12 counting) /\
  length (map (entropy counting) (seq (consumed counting) 12)) = 12%nat /\
  (forall e w',
     metadata e !! str_lit "encoding" = Some (bytes_lit "binary/encrypted") ->
     bytes_decode (default [] (metadata e !! str_lit "encryption-key-id"))
       = Return (str_lit "default-key") ->
     decode default_codec [e] w' =
       ((fun q => [q]) <$>
          (AESGCM_decrypt zero_key (take 12 (data e)) (drop 12 (data e))
           ≫= FromString),
        w')).
Proof.
  apply (envelope_wire_shape default_codec (bytes_lit "default-key") ping counting).
  reflexivity.
Defined.

Lemma order_preservation_witness :
  exists es,
    encode default_codec [ping; pong; bare] counting
      = (Return es, advance 36 counting) /\
    length es = 3%nat /\
    (forall i p, [ping; pong; bare] !! i = Some p ->
       exists e, es !! i = Some e /\
         encode default_codec [p] (advance (12 * i) counting)
         = (Return [e], advance (12 * S i) counting)) /\
    exists qs,
      decode default_codec [ping; sealed_ping; bare] quiet = (Return qs, quiet) /\
      length qs = 3%nat /\
      (forall i e, [ping; sealed_ping; bare] !! i = Some e ->
         exists q, qs !! i = Some q /\
           forall w0, decode default_codec [e] w0 = (Return [q], w0)).
Proof.
  destruct (order_preservation default_codec [ping; pong; bare] counting)
    as (Henc & _ & Hreturns & _).
  destruct (Hreturns (bytes_lit "default-key") eq_refl) as [es Hes].
  exists es. split; [exact Hes|].
  split; [exact (proj1 (Henc _ _ Hes))|].
  split; [exact (proj2 (Henc _ _ Hes))|].
  destruct (order_preservation default_codec [ping; sealed_ping; bare] quiet)
    as (_ & Hdec & _ & Hreturns').
  exists [ping; ping; bare].
  assert (decode default_codec [ping; sealed_ping; bare] quiet
          = (Return [ping; ping; bare], quiet)) as Hqs by reflexivity.
  split; [exact Hqs|].
  split; [exact (proj1 (Hdec _ _ Hqs))|].
  exact (proj2 (Hdec _ _ Hqs)).
Defined.

Lemma key_provisioning_witness :
  load_encryption_codec ∅ =
    Raise (ValueError [Lit "TEMPORAL_ENCRYPTION_KEY environment variable not set"]) /\
  load_encryption_codec zero_environ = Return default_codec /\
  key_id default_codec = str_lit "default-key" /\
  load_encryption_codec exact_environ =
    Return {| key_id := str_lit "default-key";
              _encryptor := {| aes_key := mixed_key |} |} /\
  load_encryption_codec mixed_environ =
    Return {| key_id := str_lit "key-2";
              _encryptor := {| aes_key := mixed_key |} |} /\
  bytes_hex mixed_key =
    hex_normal (str_lit "0123456789ABCDEF fedcba9876543210 0f1e2d3c4b5a6978 8796A5B4C3D2E1F0").
Proof.
  split; [by apply (key_provisioning ∅)|].
  destruct (key_provisioning zero_environ) as (_ & Hhex & Hid & _).
  assert (load_encryption_codec zero_environ = Return default_codec) as Hload.
  { destruct (Hhex _ eq_refl) as [_ ->]; [reflexivity | discriminate]. }
  split; [exact Hload|].
  split; [by apply (Hid default_codec Hload)|].
  destruct (key_provisioning exact_environ) as (_ & _ & _ & _ & Hexact & _).
  split; [exact (proj1 (Hexact mixed_key eq_refl) eq_refl)|].
  destruct (key_provisioning mixed_environ) as (_ & Hmixed & _ & _ & _ & Hback).
  assert (load_encryption_codec mixed_environ =
            Return {| key_id := str_lit "key-2";
                      _encryptor := {| aes_key := mixed_key |} |}) as Hload'.
  { destruct (Hmixed _ eq_refl) as [_ ->]; [reflexivity | discriminate]. }
  split; [exact Hload'|].
  exact (proj2 (Hback _ _ eq_refl Hload')).
Defined.

Lemma decode_plain_batch_witness :
  decode default_codec [ping; bare; pong] quiet = (Return [ping; bare; pong], quiet).
Proof.
  apply (decode_plain_batch default_codec [ping; bare; pong] quiet).
  repeat constructor.
  - exists (str_lit "binary/plain"). split; [reflexivity | discriminate].
  - exists []. split; [reflexivity | discriminate].
  - exists (str_lit "binary/plain"). split; [reflexivity | discriminate].
Defined.

(** [encode], unlike [decode], depends on the entropy device: the same
    payload sealed at two states of the device gives two envelopes. *)
Example encode_reads_entropy :
  fst (encode default_codec [ping] quiet) ≠ fst (encode default_codec [ping] counting).
Proof. discriminate. Qed.

(** The sealed [ping] decodes to [ping] with its own codec and is refused
    by a codec built with another key identifier over the same key. *)
Example sealed_ping_other_codec :
  decode default_codec [sealed_ping] quiet = (Return [ping], quiet) /\
  exists c, __init__ (str_lit "other-key") zero_key = Return c /\
    decode c [sealed_ping] quiet =
      (Raise (ValueError [Lit "Unknown key ID "; Repr (str_lit "default-key");
                          Lit ", expected "; Repr (str_lit "other-key")]), quiet).
Proof. split; [reflexivity|]. eexists. split; reflexivity. Qed.

(** ** Batches, layers and failures *)

Lemma mapM_result_imap {A B} (g : B -> result A) (f : nat -> A -> B) (l : list A) :
  (forall i x, g (f i x) = Return x) -> mapM g (imap f l) = Return l.
Proof.
  revert f. induction l as [|x l IH]; intros f Hf; [done|].
  cbn [imap]. simpl. rewrite Hf. simpl.
  rewrite IH; [done|]. intros i y. apply Hf.
Qed.

Lemma mapM_result_Raise {A B} (f : A -> result B) (l : list A) (x : exn) :
  mapM f l = Raise x <->
  exists l1 a l2, l = l1 ++ a :: l2 /\ (exists k, mapM f l1 = Return k) /\ f a = Raise x.
Proof.
  split.
  - induction l as [|a l IH]; [done|]. simpl.
    destruct (f a) as [b|y] eqn:Ha; simpl.
    + destruct (mapM f l) as [k|y] eqn:Hl; [done|]. simpl. intros [= ->].
      destruct IH as (l1 & a' & l2 & Hl12 & [k Hk] & Ha'); [done|].
      exists (a :: l1), a', l2. split; [by rewrite Hl12|]. split; [|done].
      exists (b :: k). simpl. by rewrite Ha, Hk.
    + intros [= ->]. exists [], a, l. split; [done|]. split; [by exists []|done].
  - intros (l1 & a & l2 & -> & [k Hk] & Ha).
    rewrite mapM_result_app, Hk. simpl. by rewrite Ha.
Qed.

Section Batches.
Context {cipher : Cipher} {wire : Wire}.
Implicit Types (self c : EncryptionCodec) (p e : Payload) (w : world).

Lemma decode_payload_sealed c (kb : bytes) p w :
  aead_correct -> wire_correct ->
  length (aes_key (_encryptor c)) = 32%nat ->
  str_encode (key_id c) = Return kb ->
  decode_payload c (envelope c kb p w) = Return p.
Proof.
  intros Ha Hw Hlen Hk.
  rewrite decode_payload_envelope, _decrypt_envelope by done.
  simpl. by rewrite Hw.
Qed.

Lemma decode_encode_spec c (kb : bytes) (ps : list Payload) w w' :
  aead_correct -> wire_correct ->
  length (aes_key (_encryptor c)) = 32%nat ->
  str_encode (key_id c) = Return kb ->
  decode c (imap (fun i p => envelope c kb p (advance (12 * i) w)) ps) w'
  = (Return ps, w').
Proof.
  intros Ha Hw Hlen Hk. rewrite decode_spec. f_equal.
  apply mapM_result_imap. intros i p. by apply decode_payload_sealed.
Qed.

(** X2.  The round trip holds for whole batches, of any length and with
    any payloads, sealed envelopes among them: a codec built from a 32-byte
    key and a key identifier that [str.encode] accepts gives back, by
    [decode], exactly the batch it was given to [encode], in order. *)
Theorem round_trip_batch (kid : str) (kb key : bytes) (ps : list Payload) w :
  aead_correct -> wire_correct ->
  length key = 32%nat -> str_encode kid = Return kb ->
  exists c es,
    __init__ kid key = Return c /\
    encode c ps w = (Return es, advance (12 * length ps) w) /\
    length es = length ps /\
    forall w', decode c es w' = (Return ps, w').
Proof.
  intros Ha Hw Hlen Hk.
  eexists _, _. split; [by apply __init___32|].
  split; [by apply (encode_spec _ kb)|].
  split; [apply length_imap|].
  intros w'. by apply decode_encode_spec.
Qed.

(** X3.  Sealing twice needs opening twice: [decode] opens one layer and
    no more.  It gives back the envelopes of the first [encode] as they
    were, and a second [decode] gives back the payloads. *)
Theorem nested_round_trip (kid : str) (kb key : bytes) (ps : list Payload) w :
  aead_correct -> wire_correct ->
  length key = 32%nat -> str_encode kid = Return kb ->
  exists c inner outer w1 w2,
    __init__ kid key = Return c /\
    encode c ps w = (Return inner, w1) /\
    encode c inner w1 = (Return outer, w2) /\
    forall w', decode c outer w' = (Return inner, w') /\
               decode c inner w' = (Return ps, w').
Proof.
  intros Ha Hw Hlen Hk.
  eexists _, _, _, _, _. split; [by apply __init___32|].
  split; [by apply (encode_spec _ kb)|].
  split; [by apply (encode_spec _ kb)|].
  intros w'. split; by apply decode_encode_spec.
Qed.

(** X4.  Encoding a batch in one call or in two consecutive calls gives
    the same envelopes and leaves the entropy device in the same state; if
    the first part raises, the second is not started. *)
Theorem encode_app c (ps1 ps2 : list Payload) w :
  encode c (ps1 ++ ps2) w =
  (es1 ← encode c ps1; es2 ← encode c ps2; mret (es1 ++ es2)) w.
Proof.
  destruct (str_encode (key_id c)) as [kb|x] eqn:Hk.
  - rewrite M_bind_unfold, !(encode_spec _ kb) by done.
    rewrite M_bind_unfold, (encode_spec _ kb) by done.
    unfold mret, M_ret. rewrite imap_app, length_app, advance_advance.
    f_equal; [|f_equal; lia]. do 2 f_equal.
    apply imap_ext. intros i p _. simpl. rewrite advance_advance.
    do 2 f_equal. lia.
  - destruct ps1 as [|p ps1].
    + rewrite M_bind_unfold.
      change (encode c [] w) with (Return (@nil Payload), w).
      cbv beta iota. rewrite M_bind_unfold. cbn [app].
      by destruct (encode c ps2 w) as [[es|y] w'].
    + rewrite M_bind_unfold. cbn [app]. by rewrite !(encode_raises _ x).
Qed.

(** X5.  Decoding a batch in one call or in two gives the same payloads;
    if the first part raises, that is the error of the whole. *)
Theorem decode_app c (es1 es2 : list Payload) w :
  decode c (es1 ++ es2) w =
  (qs1 ← decode c es1; qs2 ← decode c es2; mret (qs1 ++ qs2)) w.
Proof.
  rewrite M_bind_unfold, !decode_spec, mapM_result_app.
  destruct (mapM _ es1) as [qs1|x]; simpl; [|done].
  rewrite M_bind_unfold, decode_spec.
  by destruct (mapM _ es2).
Qed.

(** X6.  [decode] raises exactly when some envelope of the batch fails to
    decode on its own, and what it raises is the error of the first such
    envelope: the ones before it all decode. *)
Theorem decode_first_failure c (es : list Payload) (x : exn) w :
  decode c es w = (Raise x, w) <->
  exists before e after,
    es = before ++ e :: after /\
    (exists qs, decode c before w = (Return qs, w)) /\
    decode c [e] w = (Raise x, w).
Proof.
  rewrite decode_spec. split.
  - intros [= Hx]. apply mapM_result_Raise in Hx
      as (before & e & after & -> & [qs Hqs] & He).
    exists before, e, after. split; [done|]. split.
    + exists qs. by rewrite decode_spec, Hqs.
    + by rewrite decode_singleton, He.
  - intros (before & e & after & -> & [qs Hqs] & He). f_equal.
    rewrite decode_spec in Hqs. injection Hqs as Hqs.
    rewrite decode_singleton in He.
    apply mapM_result_Raise. exists before, e, after.
    split; [done|]. split; [by exists qs|].
    destruct (decode_payload c e); [done | by injection He as ->].
Qed.

(** X7.  What one codec sealed, a codec with another key identifier
    refuses: [decode] raises the [ValueError] naming the sealing codec's
    identifier as found and its own as expected.  Keys and data play no
    part, so this holds even when both codecs hold the same key. *)
Theorem foreign_codec_rejected c1 c2 p (ps es : list Payload) w w1 w' :
  key_id c1 ≠ key_id c2 ->
  encode c1 (p :: ps) w = (Return es, w1) ->
  decode c2 es w' =
    (Raise (ValueError [Lit "Unknown key ID "; Repr (key_id c1);
                        Lit ", expected "; Repr (key_id c2)]), w').
Proof.
  intros Hne He.
  destruct (str_encode (key_id c1)) as [kb|x] eqn:Hk;
    [|by rewrite (encode_raises _ x) in He].
  rewrite (encode_spec _ kb) in He by done. injection He as <- _.
  cbn [imap].
  match goal with
  | |- decode c2 (?e :: ?rest) w' = (Raise ?x, w') =>
      apply (decode_aborts c2 e x [] rest w') with (qs := []); [|done]
  end.
  unfold decode_payload.
  rewrite envelope_recognised, envelope_key_id, (bytes_decode_str_encode _ _ Hk).
  simpl. by rewrite bool_decide_true.
Qed.

(** X8.  A codec whose key identifier [str.encode] refuses cannot seal
    anything: [encode] raises [UnicodeEncodeError] on every batch that is
    not empty, before any entropy is read; the empty batch still encodes
    to the empty batch. *)
Theorem encode_unencodable_key_id c (x : exn) w :
  str_encode (key_id c) = Raise x ->
  x = UnicodeEncodeError /\
  encode c [] w = (Return [], w) /\
  forall p ps, encode c (p :: ps) w = (Raise UnicodeEncodeError, w).
Proof.
  intros Hk.
  assert (x = UnicodeEncodeError) as ->.
  { unfold str_encode in Hk. destruct (utf8_encode _); [done | by injection Hk]. }
  split; [done|]. split; [done|].
  intros p ps. by apply encode_raises.
Qed.

(** X9.  [encode] reads 12 bytes of entropy for each payload and nothing
    else: envelope [i] of the batch opens with the [i]-th block of 12 bytes
    after the position the device was at, and the device ends
    [12 * length] bytes further.  No byte of entropy serves two nonces. *)
Theorem encode_nonce_positions c (ps es : list Payload) w w1 :
  encode c ps w = (Return es, w1) ->
  w1 = advance (12 * length ps) w /\
  forall i e, es !! i = Some e ->
    take 12 (data e) = map (entropy w) (seq (consumed w + 12 * i) 12).
Proof.
  intros He.
  destruct (str_encode (key_id c)) as [kb|x] eqn:Hk.
  - rewrite (encode_spec _ kb) in He by done. injection He as <- <-.
    split; [done|]. intros i e Hi.
    rewrite list_lookup_imap in Hi.
    destruct (ps !! i) as [p|]; [|done]. injection Hi as <-.
    unfold envelope. cbn [data entropy consumed advance].
    by rewrite take_app_length' by (by rewrite length_map, length_seq).
  - destruct ps as [|p ps]; [|by rewrite (encode_raises _ x) in He].
    injection He as <- <-. split; [by rewrite advance_0 | done].
Qed.

(** X10.  [decode] never hands out anything for an envelope carrying the
    marker unless the cipher accepted it: if such an envelope decodes, its
    key-id field reads as the codec's identifier, the cipher returned a
    plaintext for the first 12 bytes as nonce and the rest as sealed text,
    and the payload returned is the parse of that plaintext. *)
Theorem decode_returns_only_authenticated c e (qs : list Payload) w w' :
  metadata e !! str_lit "encoding" = Some (bytes_lit "binary/encrypted") ->
  decode c [e] w = (Return qs, w') ->
  exists plain q,
    qs = [q] /\
    bytes_decode (default [] (metadata e !! str_lit "encryption-key-id"))
      = Return (key_id c) /\
    AESGCM_decrypt (aes_key (_encryptor c)) (take 12 (data e)) (drop 12 (data e))
      = Return plain /\
    FromString plain = Return q.
Proof.
  intros Hm. rewrite decode_singleton. unfold decode_payload, _decrypt.
  rewrite Hm. simpl.
  destruct (bytes_decode _) as [found|] eqn:Hf; simpl; [|done].
  case_bool_decide as Hfound; [done|].
  destruct (AESGCM_decrypt _ _ _) as [plain|] eqn:Hp; simpl; [|done].
  destruct (FromString plain) as [q|] eqn:Hq; simpl; [|done].
  intros [= <- _]. exists plain, q. repeat split; try done.
  f_equal. by destruct (decide (found = key_id c)).
Qed.

(** X11.  [_decrypt] undoes [_encrypt]: for a codec holding a 32-byte key,
    what [_encrypt] returns for some bytes is 12 bytes longer than what the
    cipher returned, and [_decrypt] of it gives those bytes back. *)
Theorem _decrypt__encrypt c (plain : bytes) w :
  aead_correct ->
  length (aes_key (_encryptor c)) = 32%nat ->
  exists nonce sealed,
    _encrypt c plain w = (Return (nonce ++ sealed), advance 12 w) /\
    length nonce = 12%nat /\
    sealed = AESGCM_encrypt (aes_key (_encryptor c)) nonce plain /\
    _decrypt c (nonce ++ sealed) = Return plain.
Proof.
  intros Ha Hlen. eexists _, _. split; [reflexivity|].
  pose proof (length_nonce w) as Hn. split; [done|]. split; [done|].
  unfold _decrypt. rewrite take_app_length', drop_app_length' by done.
  by apply Ha.
Qed.

End Batches.

(** ** More on key provisioning *)

(** X12.  [load_encryption_codec] returns a codec exactly when the key
    variable holds a string that [bytes.fromhex] decodes to 32 bytes; the
    codec then holds those bytes and the identifier variable, or
    [default-key] when that one is absent. *)
Theorem load_encryption_codec_returns (environ : gmap str str) c :
  load_encryption_codec environ = Return c <->
  exists key_hex key,
    environ !! str_lit "TEMPORAL_ENCRYPTION_KEY" = Some key_hex /\
    bytes_fromhex key_hex = Return key /\
    length key = 32%nat /\
    c = {| key_id := default (str_lit "default-key")
                             (environ !! str_lit "TEMPORAL_ENCRYPTION_KEY_ID");
           _encryptor := {| aes_key := key |} |}.
Proof.
  unfold load_encryption_codec. split.
  - destruct (environ !! str_lit "TEMPORAL_ENCRYPTION_KEY") as [[|h t]|]; [done| |done].
    destruct (bytes_fromhex (h :: t)) as [key|] eqn:Hhex; [|done].
    simpl. intros Hc. pose proof Hc as Hc'.
    apply __init___key in Hc' as (Hlen & _ & _).
    rewrite (__init___32 _ _ Hlen) in Hc. injection Hc as <-.
    by exists (h :: t), key.
  - intros (key_hex & key & -> & Hhex & Hlen & ->).
    destruct key_hex as [|h t].
    + injection Hhex as <-. done.
    + rewrite Hhex. simpl. by apply __init___32.
Qed.

(** X13.  Every 32-byte key can be provisioned: with the key variable set
    to the key's 64 hexadecimal digits, [load_encryption_codec] returns the
    codec holding exactly that key. *)
Theorem load_hex_key (environ : gmap str str) (key : bytes) :
  length key = 32%nat ->
  environ !! str_lit "TEMPORAL_ENCRYPTION_KEY" = Some (bytes_hex key) ->
  length (bytes_hex key) = 64%nat /\
  load_encryption_codec environ =
    Return {| key_id := default (str_lit "default-key")
                                (environ !! str_lit "TEMPORAL_ENCRYPTION_KEY_ID");
              _encryptor := {| aes_key := key |} |}.
Proof.
  intros Hlen Henv. split; [by rewrite length_bytes_hex, Hlen|].
  unfold load_encryption_codec. rewrite Henv.
  destruct key as [|b key]; [done|].
  change (bytes_hex (b :: key))
    with (hex_char (Byte.to_N b / 16) :: hex_char (Byte.to_N b mod 16) :: bytes_hex key).
  rewrite bytes_fromhex_hex_byte, bytes_fromhex_hex. simpl.
  by apply __init___32.
Qed.

(** ** The processes *)

Section ProcessFacts.
Context {Decimal float Client Worker : Type}.
Implicit Types (t : list (@event Decimal float Client Worker))
               (environ : gmap str str).

(** All the runs of a process, call by call: a call is never answered,
    or it is answered with a value or an exception and the run goes on. *)
Ltac explore H :=
  repeat first
    [ progress cbn [runs proc_bind mbind proc_mbind mret proc_ret
                    await lift_result finally] in H
    | match type of H with
      | context [load_encryption_codec ?e] =>
          destruct (load_encryption_codec e) eqn:?
      end
    | destruct H as [-> ->]
    | destruct H as [[-> ->] | ([?|?] & ? & -> & H)] ].

Lemma load_encryption_codec_key_length environ c :
  load_encryption_codec environ = Return c ->
  length (aes_key (_encryptor c)) = 32%nat.
Proof.
  unfold load_encryption_codec.
  destruct (environ !! str_lit "TEMPORAL_ENCRYPTION_KEY") as [[|h k]|]; [done| |done].
  destruct (bytes_fromhex (h :: k)) as [key|]; [|done].
  simpl. intros Hc. by apply __init___key in Hc as (Hlen & _ & ->).
Qed.

(** X14.  Without a usable key neither process gets anywhere: if
    [load_encryption_codec] raises on the environment the process reads,
    [run_worker] and [main] end with that exception, and the run holds no
    request for a connection, no worker and no workflow submission. *)
Theorem no_key_no_connection t (o : outcome unit) environ rest (x : exn) :
  runs run_worker t o \/ runs main t o ->
  omap environ_read t = environ :: rest ->
  load_encryption_codec environ = Raise x ->
  o = Raised x /\
  omap connection t = [] /\ omap polling t = [] /\ omap submission t = [].
Proof.
  intros [H|H] Henv Hload; [unfold run_worker in H | unfold main in H].
  all: explore H; cbn in Henv; simplify_eq;
    first [congruence | repeat split; (done || congruence)].
Qed.

Lemma connection_request t (o : outcome unit)
    (host : str) (converter : DataConverter) :
  runs run_worker t o \/ runs main t o ->
  (host, converter) ∈ omap connection t ->
  exists environ environ' c,
    omap environ_read t = [environ; environ'] /\
    load_encryption_codec environ = Return c /\
    length (aes_key (_encryptor c)) = 32%nat /\
    converter = replace_payload_codec default_converter c /\
    host = default (str_lit "localhost:7233") (environ' !! str_lit "TEMPORAL_HOST") /\
    omap connection t = [(host, converter)].
Proof.
  intros [H|H] Hin; [unfold run_worker in H | unfold main in H].
  all: explore H; cbn in Hin;
    try (by apply elem_of_nil in Hin);
    apply list_elem_of_singleton in Hin; simplify_eq;
    eexists _, _, _; repeat split; try done;
    by eapply load_encryption_codec_key_length.
Qed.

(** X15.  Neither process asks for a connection without the payload
    codec: whenever a run of [run_worker] or [main] holds a request to
    connect, the environment was read twice before, the request carries the
    default data converter with the codec that [load_encryption_codec]
    returned for the first reading, which holds a 32-byte key, and it goes
    to [TEMPORAL_HOST] of the second reading or to [localhost:7233].  It is
    the only such request of the run. *)
Theorem connection_carries_loaded_codec t (o : outcome unit)
    (host : str) (converter : DataConverter) :
  runs run_worker t o \/ runs main t o ->
  (host, converter) ∈ omap connection t ->
  exists environ environ' c,
    omap environ_read t = [environ; environ'] /\
    load_encryption_codec environ = Return c /\
    length (aes_key (_encryptor c)) = 32%nat /\
    converter = replace_payload_codec default_converter c /\
    host = default (str_lit "localhost:7233") (environ' !! str_lit "TEMPORAL_HOST") /\
    omap connection t = [(host, converter)].
Proof. apply connection_request. Qed.

(** X16.  Work reaches Temporal only through the client of that
    connection: a workflow that [main] submits, and the worker that
    [run_worker] creates, use the client the one connection returned, whose
    data converter carries the codec, and both name the task queue
    [encrypted-trading-queue]. *)
Theorem work_goes_through_the_codec t (o : outcome unit) :
  (runs main t o ->
   forall client args queue,
     (client, args, queue) ∈ omap submission t ->
     omap connected t = [client] /\ queue = TASK_QUEUE /\
     exists host c,
       omap connection t = [(host, replace_payload_codec default_converter c)]) /\
  (runs run_worker t o ->
   forall client queue,
     (client, queue) ∈ omap polling t ->
     omap connected t = [client] /\ queue = TASK_QUEUE /\
     exists host c,
       omap connection t = [(host, replace_payload_codec default_converter c)]).
Proof.
  split; intros H; [unfold main in H | unfold run_worker in H].
  all: intros; explore H;
    match goal with Hin : _ ∈ _ |- _ =>
      cbn in Hin; try (by apply elem_of_nil in Hin);
      apply list_elem_of_singleton in Hin; simplify_eq
    end;
    repeat split; by eexists _, _.
Qed.

(** X17.  Started in the same environment, the starter and the worker ask
    for the same connection: same host and same data converter, so the
    codec that seals what the starter submits is the codec with which the
    worker opens it. *)
Theorem starter_and_worker_agree t1 t2 (o1 o2 : outcome unit)
    (host1 host2 : str) (converter1 converter2 : DataConverter) :
  runs run_worker t1 o1 -> runs main t2 o2 ->
  omap environ_read t1 = omap environ_read t2 ->
  (host1, converter1) ∈ omap connection t1 ->
  (host2, converter2) ∈ omap connection t2 ->
  host1 = host2 /\ converter1 = converter2 /\
  exists c, payload_codec converter1 = Some c /\
            length (aes_key (_encryptor c)) = 32%nat.
Proof.
  intros H1 H2 Henv Hin1 Hin2.
  destruct (connection_request t1 o1 host1 converter1) as
    (e1 & e1' & c1 & He1 & Hc1 & Hlen & -> & -> & _); [by left | done |].
  destruct (connection_request t2 o2 host2 converter2) as
    (e2 & e2' & c2 & He2 & Hc2 & _ & -> & -> & _); [by right | done |].
  rewrite He1, He2 in Henv. injection Henv as <- <-.
  rewrite Hc1 in Hc2. injection Hc2 as <-.
  split; [done|]. split; [done|]. by exists c1.
Qed.

(** X18.  [run_worker] leaves no worker running behind it: in a run that
    ended, by returning or by raising, a worker that was entered was also
    exited.  The only runs with a worker entered and not exited are those
    still waiting for a call to be answered. *)
Theorem worker_exits_when_entered t (o : outcome unit) :
  runs run_worker t o ->
  o = Blocked \/ omap exited t = omap entered t.
Proof.
  intros H. unfold run_worker in H.
  explore H; first [by left | by right].
Qed.

End ProcessFacts.

(** ** The further statements at work *)

Lemma round_trip_batch_witness :
  exists c es,
    __init__ (str_lit "default-key") zero_key = Return c /\
    encode c [ping; sealed_ping; bare] counting
      = (Return es, advance (12 * 3) counting) /\
    length es = 3%nat /\
    forall w', decode c es w' = (Return [ping; sealed_ping; bare], w').
Proof.
  apply (round_trip_batch (str_lit "default-key") (bytes_lit "default-key")
           zero_key [ping; sealed_ping; bare] counting).
  - apply checksum_cipher_correct.
  - apply digit_wire_correct.
  - reflexivity.
  - reflexivity.
Defined.

Lemma nested_round_trip_witness :
  exists c inner outer w1 w2,
    __init__ (str_lit "default-key") zero_key = Return c /\
    encode c [ping; pong] counting = (Return inner, w1) /\
    encode c inner w1 = (Return outer, w2) /\
    forall w', decode c outer w' = (Return inner, w') /\
               decode c inner w' = (Return [ping; pong], w').
Proof.
  apply (nested_round_trip (str_lit "default-key") (bytes_lit "default-key")
           zero_key [ping; pong] counting).
  - apply checksum_cipher_correct.
  - apply digit_wire_correct.
  - reflexivity.
  - reflexivity.
Defined.

Lemma foreign_codec_rejected_witness :
  decode other_codec [sealed_ping] quiet =
    (Raise (ValueError [Lit "Unknown key ID "; Repr (str_lit "default-key");
                        Lit ", expected "; Repr (str_lit "other-key")]), quiet).
Proof.
  apply (foreign_codec_rejected default_codec other_codec ping [] [sealed_ping]
           counting (advance 12 counting) quiet).
  - discriminate.
  - reflexivity.
Defined.

Lemma encode_unencodable_key_id_witness :
  UnicodeEncodeError = UnicodeEncodeError /\
  encode surrogate_codec [] counting = (Return [], counting) /\
  forall p ps, encode surrogate_codec (p :: ps) counting
               = (Raise UnicodeEncodeError, counting).
Proof.
  apply (encode_unencodable_key_id surrogate_codec UnicodeEncodeError counting).
  reflexivity.
Defined.

Lemma encode_nonce_positions_witness :
  advance 24 counting = advance (12 * 2) counting /\
  forall i e,
    imap (fun i p => envelope default_codec (bytes_lit "default-key") p
                       (advance (12 * i) counting)) [ping; pong] !! i = Some e ->
    take 12 (data e) = map (entropy counting) (seq (consumed counting + 12 * i) 12).
Proof.
  apply (encode_nonce_positions default_codec [ping; pong]).
  reflexivity.
Defined.

Lemma decode_returns_only_authenticated_witness :
  exists plain q,
    [ping] = [q] /\
    bytes_decode (default [] (metadata sealed_ping !! str_lit "encryption-key-id"))
      = Return (str_lit "default-key") /\
    AESGCM_decrypt zero_key (take 12 (data sealed_ping)) (drop 12 (data sealed_ping))
      = Return plain /\
    FromString plain = Return q.
Proof.
  apply (decode_returns_only_authenticated default_codec sealed_ping [ping] quiet quiet).
  - reflexivity.
  - reflexivity.
Defined.

Lemma _decrypt__encrypt_witness :
  exists nonce sealed,
    _encrypt default_codec (bytes_lit "ping") counting
      = (Return (nonce ++ sealed), advance 12 counting) /\
    length nonce = 12%nat /\
    sealed = AESGCM_encrypt zero_key nonce (bytes_lit "ping") /\
    _decrypt default_codec (nonce ++ sealed) = Return (bytes_lit "ping").
Proof.
  apply (_decrypt__encrypt default_codec (bytes_lit "ping") counting).
  - apply checksum_cipher_correct.
  - reflexivity.
Defined.

Lemma load_hex_key_witness :
  length (bytes_hex zero_key) = 64%nat /\
  load_encryption_codec zero_environ = Return default_codec.
Proof.
  apply (load_hex_key zero_environ zero_key).
  - reflexivity.
  - reflexivity.
Defined.

(** A given list of events is a run: each call in turn got the answer the
    list records. *)
Ltac follow :=
  repeat first
    [ progress cbn [runs proc_bind mbind proc_mbind mret proc_ret
                    await lift_result finally]
    | split; reflexivity
    | left; split; reflexivity
    | right; eexists _, _; split; [reflexivity|] ].

Lemma keyless_run_runs :
  runs run_worker keyless_run
    (Raised (ValueError [Lit "TEMPORAL_ENCRYPTION_KEY environment variable not set"])).
Proof. unfold run_worker, keyless_run. follow. Qed.

Lemma worker_run_runs : runs run_worker worker_run (Returned ()).
Proof. unfold run_worker, worker_run. follow. Qed.

Lemma starter_run_runs : runs main starter_run Blocked.
Proof. unfold main, starter_run. follow. Qed.

Lemma no_key_no_connection_witness :
  Raised (R:=unit)
    (ValueError [Lit "TEMPORAL_ENCRYPTION_KEY environment variable not set"])
  = Raised (ValueError [Lit "TEMPORAL_ENCRYPTION_KEY environment variable not set"]) /\
  omap connection keyless_run = [] /\
  omap polling keyless_run = [] /\
  omap submission keyless_run = [].
Proof.
  apply (no_key_no_connection keyless_run _ ∅ []).
  - left. apply keyless_run_runs.
  - reflexivity.
  - reflexivity.
Defined.

Lemma connection_carries_loaded_codec_witness :
  exists environ environ' c,
    omap environ_read starter_run = [environ; environ'] /\
    load_encryption_codec environ = Return c /\
    length (aes_key (_encryptor c)) = 32%nat /\
    replace_payload_codec default_converter default_codec
      = replace_payload_codec default_converter c /\
    str_lit "localhost:7233"
      = default (str_lit "localhost:7233") (environ' !! str_lit "TEMPORAL_HOST") /\
    omap connection starter_run =
      [(str_lit "localhost:7233",
        replace_payload_codec default_converter default_codec)].
Proof.
  apply (connection_carries_loaded_codec starter_run Blocked).
  - right. apply starter_run_runs.
  - cbn. constructor.
Defined.

Lemma work_goes_through_the_codec_witness :
  (omap connected starter_run = [7%nat] /\ TASK_QUEUE = TASK_QUEUE /\
   exists host c,
     omap connection starter_run
     = [(host, replace_payload_codec default_converter c)]) /\
  (omap connected worker_run = [7%nat] /\ TASK_QUEUE = TASK_QUEUE /\
   exists host c,
     omap connection worker_run
     = [(host, replace_payload_codec default_converter c)]).
Proof.
  split.
  - eapply (proj1 (work_goes_through_the_codec starter_run Blocked)).
    + apply starter_run_runs.
    + cbn. constructor.
  - apply (proj2 (work_goes_through_the_codec worker_run (Returned ()))).
    + apply worker_run_runs.
    + cbn. constructor.
Defined.

Lemma starter_and_worker_agree_witness :
  str_lit "localhost:7233" = str_lit "localhost:7233" /\
  replace_payload_codec default_converter default_codec
    = replace_payload_codec default_converter default_codec /\
  exists c,
    payload_codec (replace_payload_codec default_converter default_codec) = Some c /\
    length (aes_key (_encryptor c)) = 32%nat.
Proof.
  apply (starter_and_worker_agree worker_run starter_run (Returned ()) Blocked).
  - apply worker_run_runs.
  - apply starter_run_runs.
  - reflexivity.
  - cbn. constructor.
  - cbn. constructor.
Defined.

Lemma worker_exits_when_entered_witness :
  Returned () = Blocked \/ omap exited worker_run = omap entered worker_run.
Proof. apply (worker_exits_when_entered worker_run), worker_run_runs. Defined.
